(** * screen-touch-checker: the session store, the grid test, the heatmap
      aggregation and the local database, embedded and verified.

    Sources embedded here:
    - [store/useSessionStore.ts] (the zustand store: [startSession],
      [endSession], [cancelSession], [recordTouch], [markCellStatus],
      [addFaultyArea], [deleteSession], [resetActiveSession], [loadSessions]);
    - [types/index.ts] (the records and enumerations);
    - [screens/GridTestScreen.tsx] ([zoneForCell], [handleCellPress]);
    - [screens/HeatmapScreen.tsx] ([buildHeatCells]);
    - [services/database.ts] ([saveSession], [getSessions],
      [getSessionById], [deleteSession]).

    Conventions of the embedding.
    - A JavaScript number that the program uses as an integer (grid
      coordinates, counters, millisecond timestamps) is a [Z]; one that it
      uses as a real (screen coordinates, percentages, intensities) is a
      [Q].  Every finite double is a rational; the embedding computes with
      exact rationals, and NaN and the infinities are outside the model.
      The percentages of a faulty area are the exception: they are computed
      as the engine computes them, in IEEE 754 binary64 with rounding to
      nearest ([percent]), and stored as the rationals they denote.
    - An optional field [f?: T] is an [option T]; [undefined] and SQL
      [NULL] are both [None].
    - [Date.now()] and [Math.random()] are read from an environment
      ([Env]) that gives the k-th reading made during one call.
    - A call completes normally or abruptly ([completion]).
    - What the language leaves to the implementation is a parameter: the
      number of arguments that the engine accepts in one call ([Engine]). *)

From Stdlib Require Import QArith Qround Qminmax Qabs Lqa SpecFloat.
From stdpp Require Import base numbers list strings pretty gmap sorting relations.

Local Open Scope Z_scope.

(** ** Data model ([types/index.ts]) *)

Inductive CellStatus := untested | ok | faulty | ghost.
Inductive SessionType := grid | ghost_monitor | multi_touch.
Inductive SessionStatus := active | completed | cancelled.
Inductive Severity := low | medium | high.

Inductive HardwareZone :=
  | digitizer_top
  | digitizer_bottom
  | digitizer_left_edge
  | digitizer_right_edge
  | lcd_connector
  | battery_connector
  | front_camera_flex
  | home_button_flex
  | full_digitizer.

#[global] Instance CellStatus_eq_dec : EqDecision CellStatus.
Proof. solve_decision. Defined.
#[global] Instance SessionType_eq_dec : EqDecision SessionType.
Proof. solve_decision. Defined.
#[global] Instance SessionStatus_eq_dec : EqDecision SessionStatus.
Proof. solve_decision. Defined.
#[global] Instance HardwareZone_eq_dec : EqDecision HardwareZone.
Proof. solve_decision. Defined.

Record TouchPoint := {
  tp_id : string;
  tp_x : Q;
  tp_y : Q;
  tp_timestamp : Z;
  tp_pressure : option Q;
  tp_isGhost : option bool;
}.

Record GridCell := {
  row : Z;
  col : Z;
  status : CellStatus;
  touchCount : Z;
  lastTouched : option Z;
}.

Record FaultyArea := {
  fa_id : string;
  label : string;
  xPercent : Q;
  yPercent : Q;
  widthPercent : Q;
  heightPercent : Q;
  severity : Severity;
  hardwareZone : option HardwareZone;
}.

Record DiagnosticSession := {
  id : string;
  type : SessionType;
  sess_status : SessionStatus;
  startedAt : Z;
  endedAt : option Z;
  touchPoints : list TouchPoint;
  gridCells : option (list GridCell);
  faultyAreas : option (list FaultyArea);
  notes : option string;
  deviceModel : option string;
}.

(** [Omit<TouchPoint, 'id'>] and [Omit<FaultyArea, 'id'>]: what the screens
    hand to the store, which then adds the id. *)
Record TouchInput := {
  in_x : Q;
  in_y : Q;
  in_timestamp : Z;
  in_pressure : option Q;
  in_isGhost : option bool;
}.

Record FaultyAreaInput := {
  in_label : string;
  in_xPercent : Q;
  in_yPercent : Q;
  in_widthPercent : Q;
  in_heightPercent : Q;
  in_severity : Severity;
  in_hardwareZone : option HardwareZone;
}.

(** ** Constants ([constants/index.ts]) *)

Definition GRID_ROWS : Z := 10.
Definition GRID_COLS : Z := 6.

(** ** Environment and completions *)

(** The readings one call makes: [Date_now env k] is what the k-th
    evaluation of [Date.now()] returns, [random_suffix env k] what the k-th
    evaluation of [Math.random().toString(36).slice(2, 9)] returns. *)
Record Env := {
  Date_now : nat → Z;
  random_suffix : nat → string;
}.

(** How a call ends: normally with a value, or abruptly with a thrown
    value.  The store has no [throw] statement and performs no operation
    that throws on well-typed arguments, which is why each of its actions
    below ends in [Normal]. *)
Inductive completion (A : Type) :=
  | Normal (a : A)
  | Throw (err : string).
Arguments Normal {A} a.
Arguments Throw {A} err.

Definition fails {A} (c : completion A) : Prop := ∃ err, c = Throw err.

(** ** The local database ([services/database.ts])

    The SQLite engine is a collaborator outside the repository; what is
    modelled of it is what the four statements of the service observe.
    - [sessions] has [id] as primary key: a finite map from id to the
      other columns.
    - [touch_points] has [id] as primary key and is kept in rowid order,
      the order in which a [SELECT] without [ORDER BY] scans it (also
      through [idx_touch_session]: equal [session_id], then rowid).
    - [INSERT OR REPLACE] deletes the row that holds the same primary key,
      if any, and appends the new row with a fresh, largest rowid.
    - [foreign_keys] is the connection's [PRAGMA foreign_keys]; the service
      never sets it, so both values are covered.  When it is on, deleting
      a session row (directly or through [REPLACE]) deletes the touch
      points that reference it ([ON DELETE CASCADE]).
    Storage failures are outside the model. *)

Record SessionRow := {
  r_type : SessionType;
  r_status : SessionStatus;
  r_started_at : Z;
  r_ended_at : option Z;
  r_notes : option string;
  r_device_model : option string;
}.

Record TouchPointRow := {
  t_id : string;
  t_session_id : string;
  t_x : Q;
  t_y : Q;
  t_timestamp : Z;
  t_pressure : option Q;
  t_is_ghost : Z;
}.

Record Db := {
  sessions_tbl : gmap string SessionRow;
  touch_points_tbl : list TouchPointRow;
  foreign_keys : bool;
}.

Definition delete_touch_points_of (sid : string) (tps : list TouchPointRow)
  : list TouchPointRow :=
  filter (λ t, t_session_id t ≠ sid) tps.

(** [INSERT OR REPLACE INTO sessions ...]. *)
Definition replace_session (sid : string) (r : SessionRow) (db : Db) : Db :=
  {| sessions_tbl := <[sid := r]> (sessions_tbl db);
     touch_points_tbl :=
       match sessions_tbl db !! sid with
       | Some _ =>
           if foreign_keys db
           then delete_touch_points_of sid (touch_points_tbl db)
           else touch_points_tbl db
       | None => touch_points_tbl db
       end;
     foreign_keys := foreign_keys db |}.

(** [INSERT OR REPLACE INTO touch_points ...]. *)
Definition replace_touch_point (t : TouchPointRow) (db : Db) : Db :=
  {| sessions_tbl := sessions_tbl db;
     touch_points_tbl :=
       filter (λ u, t_id u ≠ t_id t) (touch_points_tbl db) ++ [t];
     foreign_keys := foreign_keys db |}.

(** [tp.isGhost ? 1 : 0]. *)
Definition truthy (b : option bool) : bool :=
  match b with Some true => true | _ => false end.

Definition touch_row (sid : string) (tp : TouchPoint) : TouchPointRow :=
  {| t_id := tp_id tp;
     t_session_id := sid;
     t_x := tp_x tp;
     t_y := tp_y tp;
     t_timestamp := tp_timestamp tp;
     t_pressure := tp_pressure tp;
     t_is_ghost := if truthy (tp_isGhost tp) then 1 else 0 |}.

Definition saveSession (session : DiagnosticSession) (db : Db) : Db :=
  let db1 :=
    replace_session (id session)
      {| r_type := type session;
         r_status := sess_status session;
         r_started_at := startedAt session;
         r_ended_at := endedAt session;
         r_notes := notes session;
         r_device_model := deviceModel session |} db in
  if bool_decide (0 < length (touchPoints session))%nat
  then foldl (λ d tp, replace_touch_point (touch_row (id session) tp) d)
             db1 (touchPoints session)
  else db1.

Definition session_of_row (sid : string) (r : SessionRow)
    (tps : list TouchPoint) : DiagnosticSession :=
  {| id := sid;
     type := r_type r;
     sess_status := r_status r;
     startedAt := r_started_at r;
     endedAt := r_ended_at r;
     touchPoints := tps;
     gridCells := None;
     faultyAreas := Some [];
     notes := r_notes r;
     deviceModel := r_device_model r |}.

(** [ORDER BY started_at DESC]; rows with equal [started_at] come in the
    engine's order, on which nothing below depends. *)
Definition started_at_desc (a b : string * SessionRow) : Prop :=
  r_started_at (snd b) ≤ r_started_at (snd a).

#[global] Instance started_at_desc_dec a b : Decision (started_at_desc a b).
Proof. unfold started_at_desc. apply _. Defined.

Definition getSessions (db : Db) : list DiagnosticSession :=
  (λ kv, session_of_row (fst kv) (snd kv) []) <$>
    merge_sort started_at_desc (map_to_list (sessions_tbl db)).

Definition touch_point_of_row (t : TouchPointRow) : TouchPoint :=
  {| tp_id := t_id t;
     tp_x := t_x t;
     tp_y := t_y t;
     tp_timestamp := t_timestamp t;
     tp_pressure := t_pressure t;
     tp_isGhost := Some (bool_decide (t_is_ghost t = 1)) |}.

Definition getSessionById (sid : string) (db : Db) : option DiagnosticSession :=
  match sessions_tbl db !! sid with
  | None => None
  | Some r =>
      let tpRows := filter (λ t, t_session_id t = sid) (touch_points_tbl db) in
      Some (session_of_row sid r (touch_point_of_row <$> tpRows))
  end.

(** [DELETE FROM sessions WHERE id = ?]. *)
Definition db_deleteSession (sid : string) (db : Db) : Db :=
  {| sessions_tbl := delete sid (sessions_tbl db);
     touch_points_tbl :=
       match sessions_tbl db !! sid with
       | Some _ =>
           if foreign_keys db
           then delete_touch_points_of sid (touch_points_tbl db)
           else touch_points_tbl db
       | None => touch_points_tbl db
       end;
     foreign_keys := foreign_keys db |}.

(** The loop of [saveSession] over the touch points. *)
Definition insert_points (sid : string) (pts : list TouchPoint) (db : Db) : Db :=
  foldl (λ d tp, replace_touch_point (touch_row sid tp) d) db pts.

(** What the round-trip property compares of a touch point: coordinates,
    timestamp and ghost flag (read as the program reads it, by truth
    value). *)
Definition observed (tp : TouchPoint) : Q * Q * Z * bool :=
  (tp_x tp, tp_y tp, tp_timestamp tp, truthy (tp_isGhost tp)).

(** A touch point as it comes back from the database: every column is
    returned as it was written, and [isGhost] is the boolean
    [is_ghost === 1]. *)
Definition as_stored (tp : TouchPoint) : TouchPoint :=
  {| tp_id := tp_id tp;
     tp_x := tp_x tp;
     tp_y := tp_y tp;
     tp_timestamp := tp_timestamp tp;
     tp_pressure := tp_pressure tp;
     tp_isGhost := Some (truthy (tp_isGhost tp)) |}.

(** The session [s] with other grid cells and other faulty areas. *)
Definition with_grid_and_areas (g : option (list GridCell))
    (f : option (list FaultyArea)) (s : DiagnosticSession) : DiagnosticSession :=
  {| id := id s; type := type s; sess_status := sess_status s;
     startedAt := startedAt s; endedAt := endedAt s;
     touchPoints := touchPoints s;
     gridCells := g; faultyAreas := f;
     notes := notes s; deviceModel := deviceModel s |}.

(** ** The session store ([store/useSessionStore.ts]) *)

Definition generateId (now : Z) (suffix : string) : string :=
  pretty now +:+ "-" +:+ suffix.

Definition buildEmptyGrid : list GridCell :=
  r ← seqZ 0 GRID_ROWS;
  c ← seqZ 0 GRID_COLS;
  [ {| row := r; col := c; status := untested; touchCount := 0;
       lastTouched := None |} ].

Record SessionState := {
  sessions : list DiagnosticSession;
  activeSession : option DiagnosticSession;
  isLoading : bool;
}.

Definition initialState : SessionState :=
  {| sessions := []; activeSession := None; isLoading := false |}.

(** [set({ activeSession: a })]: the other fields of the store are kept. *)
Definition set_activeSession (a : option DiagnosticSession)
    (st : SessionState) : SessionState :=
  {| sessions := sessions st; activeSession := a; isLoading := isLoading st |}.

(** The asynchronous actions ([loadSessions], [endSession],
    [deleteSession]) act on the store and on the database; each is
    embedded as one atomic step on the pair, with the awaited statement
    completing before any other event is handled. *)
Definition loadSessions (st : SessionState) (db : Db)
  : completion (SessionState * Db) :=
  Normal ({| sessions := getSessions db;
             activeSession := activeSession st;
             isLoading := false |}, db).

Definition startSession (ty : SessionType) (dm : option string) (env : Env)
    (st : SessionState) : completion (DiagnosticSession * SessionState) :=
  let session :=
    {| id := generateId (Date_now env 0) (random_suffix env 0);
       type := ty;
       sess_status := active;
       startedAt := Date_now env 1;
       endedAt := None;
       touchPoints := [];
       gridCells := if decide (ty = grid) then Some buildEmptyGrid else None;
       faultyAreas := Some [];
       notes := None;
       deviceModel := dm |} in
  Normal (session, set_activeSession (Some session) st).

Definition endSession (n : option string) (env : Env)
    (st : SessionState) (db : Db) : completion (SessionState * Db) :=
  match activeSession st with
  | None => Normal (st, db)
  | Some a =>
      let completed_session :=
        {| id := id a;
           type := type a;
           sess_status := completed;
           startedAt := startedAt a;
           endedAt := Some (Date_now env 0);
           touchPoints := touchPoints a;
           gridCells := gridCells a;
           faultyAreas := faultyAreas a;
           notes := n;
           deviceModel := deviceModel a |} in
      Normal ({| sessions := completed_session :: sessions st;
                 activeSession := None;
                 isLoading := isLoading st |},
              saveSession completed_session db)
  end.

Definition cancelSession (st : SessionState) : completion SessionState :=
  Normal (set_activeSession None st).

Definition recordTouch (point : TouchInput) (env : Env) (st : SessionState)
  : completion SessionState :=
  match activeSession st with
  | None => Normal st
  | Some a =>
      let tp :=
        {| tp_id := generateId (Date_now env 0) (random_suffix env 0);
           tp_x := in_x point;
           tp_y := in_y point;
           tp_timestamp := in_timestamp point;
           tp_pressure := in_pressure point;
           tp_isGhost := in_isGhost point |} in
      Normal (set_activeSession
        (Some {| id := id a; type := type a; sess_status := sess_status a;
                 startedAt := startedAt a; endedAt := endedAt a;
                 touchPoints := touchPoints a ++ [tp];
                 gridCells := gridCells a; faultyAreas := faultyAreas a;
                 notes := notes a; deviceModel := deviceModel a |}) st)
  end.

(** [cell.row === row && cell.col === col]. *)
Definition at_cell (r c : Z) (cell : GridCell) : bool :=
  (row cell =? r) && (col cell =? c).

(** The callback of [gridCells.map] in [markCellStatus].  [Date.now()] is
    evaluated inside the callback, once for each cell that matches; [k]
    counts the readings made so far. *)
Fixpoint markCells (r c : Z) (s : CellStatus) (env : Env) (k : nat)
    (cells : list GridCell) : list GridCell :=
  match cells with
  | [] => []
  | cell :: rest =>
      if at_cell r c cell
      then {| row := row cell; col := col cell; status := s;
              touchCount := touchCount cell + 1;
              lastTouched := Some (Date_now env k) |}
           :: markCells r c s env (S k) rest
      else cell :: markCells r c s env k rest
  end.

Definition markCellStatus (r c : Z) (s : CellStatus) (env : Env)
    (st : SessionState) : completion SessionState :=
  match activeSession st with
  | None => Normal st
  | Some a =>
      match gridCells a with
      | None => Normal st
      | Some cells =>
          let updatedCells := markCells r c s env 0 cells in
          Normal (set_activeSession
            (Some {| id := id a; type := type a; sess_status := sess_status a;
                     startedAt := startedAt a; endedAt := endedAt a;
                     touchPoints := touchPoints a;
                     gridCells := Some updatedCells;
                     faultyAreas := faultyAreas a;
                     notes := notes a; deviceModel := deviceModel a |}) st)
      end
  end.

Definition addFaultyArea (area : FaultyAreaInput) (env : Env)
    (st : SessionState) : completion SessionState :=
  match activeSession st with
  | None => Normal st
  | Some a =>
      let faultyArea :=
        {| fa_id := generateId (Date_now env 0) (random_suffix env 0);
           label := in_label area;
           xPercent := in_xPercent area;
           yPercent := in_yPercent area;
           widthPercent := in_widthPercent area;
           heightPercent := in_heightPercent area;
           severity := in_severity area;
           hardwareZone := in_hardwareZone area |} in
      Normal (set_activeSession
        (Some {| id := id a; type := type a; sess_status := sess_status a;
                 startedAt := startedAt a; endedAt := endedAt a;
                 touchPoints := touchPoints a;
                 gridCells := gridCells a;
                 faultyAreas :=
                   Some (default [] (faultyAreas a) ++ [faultyArea]);
                 notes := notes a; deviceModel := deviceModel a |}) st)
  end.

Definition deleteSession (sid : string) (st : SessionState) (db : Db)
  : completion (SessionState * Db) :=
  Normal ({| sessions := filter (λ sess, id sess ≠ sid) (sessions st);
             activeSession := activeSession st;
             isLoading := isLoading st |},
          db_deleteSession sid db).

Definition resetActiveSession (st : SessionState) : completion SessionState :=
  Normal (set_activeSession None st).

(** ** The grid test screen ([screens/GridTestScreen.tsx]) *)

Definition zoneForCell (r c totalRows totalCols : Z) : HardwareZone :=
  let isTop := r <? 2 in
  let isBottom := r >=? totalRows - 2 in
  let isLeft := c =? 0 in
  let isRight := c =? totalCols - 1 in
  if isTop then digitizer_top
  else if isBottom then digitizer_bottom
  else if isLeft then digitizer_left_edge
  else if isRight then digitizer_right_edge
  else lcd_connector.

(** The component state that [handleCellPress] reads. *)
Record GridTestScreen := {
  started : bool;
  finished : bool;
}.

(** [activeSession?.gridCells ?? []]. *)
Definition screen_gridCells (st : SessionState) : list GridCell :=
  match activeSession st with
  | Some a => default [] (gridCells a)
  | None => []
  end.

(** [gridCells.find((c) => c.row === row && c.col === col)]. *)
Definition find_cell (r c : Z) (cells : list GridCell) : option GridCell :=
  List.find (at_cell r c) cells.

(** The screen is rendered again after every change of the store, so the
    [gridCells] that the callback closes over are those of the store at
    the time of the press. *)
Definition handleCellPress (r c : Z) (ui : GridTestScreen) (env : Env)
    (st : SessionState) : completion SessionState :=
  if negb (started ui) || finished ui then Normal st
  else
    match find_cell r c (screen_gridCells st) with
    | None => Normal st
    | Some cell =>
        if decide (status cell = ok)
        then markCellStatus r c faulty env st
        else markCellStatus r c ok env st
    end.

(** The status that a press gives to a cell. *)
Definition after_press (s : CellStatus) : CellStatus :=
  if decide (s = ok) then faulty else ok.

(** The zone rule in the words of the specification, to be compared with
    [zoneForCell]: rows 0 and 1, then the last two rows, then the first
    column, then the last column, then the interior. *)
Definition zone_rule (r c totalRows totalCols : Z) : HardwareZone :=
  if decide (r = 0 ∨ r = 1) then digitizer_top
  else if decide (r = totalRows - 2 ∨ r = totalRows - 1) then digitizer_bottom
  else if decide (c = 0) then digitizer_left_edge
  else if decide (c = totalCols - 1) then digitizer_right_edge
  else lcd_connector.

(** ** The heatmap aggregation ([screens/HeatmapScreen.tsx])

    [buildHeatCells] returns [None] when the JavaScript would complete
    abruptly or touch the grid outside what it allocated: a length that
    [new Array] or [Array.from] refuses (RangeError), more arguments than
    the engine accepts in the call of [Math.max] (RangeError), a row that
    does not exist (TypeError), a column past the end of its row (read as
    [undefined], written as NaN).  Running out of memory is not
    modelled. *)

(** What the aggregation depends on in the engine that runs it: the
    largest number of arguments that one call may take.  The language
    leaves this number to the implementation; a call that spreads an array
    with more elements throws a RangeError.  On every engine the number is
    far below the largest length of an array. *)
Record Engine := { max_arguments : Z }.

(** The largest length of an array, 2^32 - 1. *)
Definition MAX_ARRAY_LENGTH : Z := 4294967295.

Record HeatCell := {
  hc_x : Z;
  hc_y : Z;
  count : Z;
  normalizedIntensity : Q;
}.

Definition cellSize : Z := 20.

(** [new Array(cols).fill(0)]: a RangeError for a length that is negative
    or above the largest length of an array. *)
Definition new_row (cols : Z) : option (list Z) :=
  if decide (0 ≤ cols ≤ MAX_ARRAY_LENGTH)
  then Some (replicate (Z.to_nat cols) 0)
  else None.

(** [Array.from({ length: rows }, () => new Array(cols).fill(0))]: a
    negative length counts as zero, a length above the largest length of
    an array is a RangeError; the callback runs once for each index, so
    every row is an array of its own. *)
Definition new_grid (rows cols : Z) : option (list (list Z)) :=
  if decide (rows ≤ MAX_ARRAY_LENGTH)
  then mapM (λ _, new_row cols) (seqZ 0 rows)
  else None.

(** [l[i]] for an index that must exist. *)
Definition at_index {A} (l : list A) (i : Z) : option A :=
  if decide (0 ≤ i) then l !! Z.to_nat i else None.

(** [grid[r][c]]. *)
Definition at2 (grid : list (list Z)) (r c : Z) : option Z :=
  line ← at_index grid r; at_index line c.

(** [grid[row][col] += 1]. *)
Definition bump (r c : Z) (grid : list (list Z)) : option (list (list Z)) :=
  line ← at_index grid r;
  n ← at_index line c;
  Some (<[Z.to_nat r := <[Z.to_nat c := n + 1]> line]> grid).

(** [Math.floor((pt.y / containerH) * rows)] and
    [Math.floor((pt.x / containerW) * cols)]. *)
Definition bin_of (containerW containerH : Q) (rows cols : Z) (pt : TouchPoint)
  : Z * Z :=
  (Qfloor ((tp_y pt / containerH) * inject_Z rows),
   Qfloor ((tp_x pt / containerW) * inject_Z cols)).

(** The loop over the points. *)
Fixpoint count_points (containerW containerH : Q) (rows cols : Z)
    (points : list TouchPoint) (grid : list (list Z))
  : option (list (list Z)) :=
  match points with
  | [] => Some grid
  | pt :: rest =>
      let '(r, c) := bin_of containerW containerH rows cols pt in
      if decide (0 ≤ r ∧ r < rows ∧ 0 ≤ c ∧ c < cols)
      then grid' ← bump r c grid;
           count_points containerW containerH rows cols rest grid'
      else count_points containerW containerH rows cols rest grid
  end.

(** The largest of 1 and the counts. *)
Definition max_with_1 (counts : list Z) : Z := foldr Z.max 1 counts.

(** [Math.max(1, ...counts)]: a call with one argument more than there
    are counts.  It throws a RangeError when the engine does not accept
    that many arguments, and returns the largest argument otherwise. *)
Definition Math_max_1 (engine : Engine) (counts : list Z) : option Z :=
  if decide (1 + Z.of_nat (length counts) ≤ max_arguments engine)
  then Some (max_with_1 counts)
  else None.

Definition heat_cell (maxCount r c n : Z) : HeatCell :=
  {| hc_x := c * cellSize;
     hc_y := r * cellSize;
     count := n;
     normalizedIntensity := (inject_Z n / inject_Z maxCount)%Q |}.

(** The body of the two nested loops: what is pushed for the bin (r, c). *)
Definition emit (grid : list (list Z)) (maxCount r c : Z)
  : option (list HeatCell) :=
  n ← at2 grid r c;
  Some (if decide (0 < n) then [heat_cell maxCount r c n] else []).

Definition scan (rows cols : Z) (grid : list (list Z)) (maxCount : Z)
  : option (list HeatCell) :=
  (λ pushed, concat pushed) <$>
    mapM (λ r, (λ pushed, concat pushed) <$>
                 mapM (emit grid maxCount r) (seqZ 0 cols))
         (seqZ 0 rows).

(** [grid.flat()] is [concat grid]. *)
Definition buildHeatCells (engine : Engine) (points : list TouchPoint)
    (containerW containerH : Q)
  : option (list HeatCell) :=
  if decide (length points = 0%nat) then Some []
  else
    let cols := Qceiling (containerW / inject_Z cellSize) in
    let rows := Qceiling (containerH / inject_Z cellSize) in
    grid ← new_grid rows cols;
    grid' ← count_points containerW containerH rows cols points grid;
    maxCount ← Math_max_1 engine (concat grid');
    scan rows cols grid' maxCount.

(** The aggregation in the words of the specification, to be compared
    with [buildHeatCells]: the count of a bin is the number of points that
    fall in it, [maxCount] is the largest count or 1, and one cell is
    emitted for each bin with a positive count, rows first. *)
Definition bin_count (containerW containerH : Q) (rows cols : Z)
    (points : list TouchPoint) (r c : Z) : Z :=
  Z.of_nat (length (filter
    (λ pt, bin_of containerW containerH rows cols pt = (r, c)) points)).

(** The numbers of rows and columns for a container. *)
Definition heat_rows (containerH : Q) : Z :=
  Qceiling (containerH / inject_Z cellSize).
Definition heat_cols (containerW : Q) : Z :=
  Qceiling (containerW / inject_Z cellSize).

Definition heat_count (points : list TouchPoint) (containerW containerH : Q)
  : Z → Z → Z :=
  bin_count containerW containerH (heat_rows containerH) (heat_cols containerW)
            points.

Definition heat_maxCount (points : list TouchPoint) (containerW containerH : Q)
  : Z :=
  max_with_1 (r ← seqZ 0 (heat_rows containerH);
              c ← seqZ 0 (heat_cols containerW);
              [heat_count points containerW containerH r c]).

Definition heat_cells_spec (points : list TouchPoint)
    (containerW containerH : Q) : list HeatCell :=
  r ← seqZ 0 (heat_rows containerH);
  c ← seqZ 0 (heat_cols containerW);
  if decide (0 < heat_count points containerW containerH r c)
  then [heat_cell (heat_maxCount points containerW containerH) r c
                  (heat_count points containerW containerH r c)]
  else [].

(** The grid of a container fits the engine: its rows and each of its
    rows can be allocated, and the counts of all its bins, with the
    leading 1, can be passed to one call. *)
Definition grid_fits (engine : Engine) (containerW containerH : Q) : Prop :=
  heat_rows containerH ≤ MAX_ARRAY_LENGTH ∧
  heat_cols containerW ≤ MAX_ARRAY_LENGTH ∧
  1 + heat_rows containerH * heat_cols containerW ≤ max_arguments engine.

#[global] Instance grid_fits_dec engine containerW containerH :
  Decision (grid_fits engine containerW containerH).
Proof. unfold grid_fits. apply _. Defined.

(** Where a heat cell is drawn. *)
Definition position (hc : HeatCell) : Z * Z := (hc_y hc, hc_x hc).

(** The grid whose entry at (r, c) is [f r c]. *)
Definition tabulate (rows cols : Z) (f : Z → Z → Z) : list (list Z) :=
  (λ r, f r <$> seqZ 0 cols) <$> seqZ 0 rows.

(** ** Runs of the application

    One step is one action of the store, called with any arguments and any
    environment; a reachable state is one that a finite run from the initial
    store produces, over any database. *)

Inductive step : SessionState * Db → SessionState * Db → Prop :=
  | step_loadSessions st db r :
      loadSessions st db = Normal r → step (st, db) r
  | step_startSession ty dm env st db s st' :
      startSession ty dm env st = Normal (s, st') → step (st, db) (st', db)
  | step_endSession n env st db r :
      endSession n env st db = Normal r → step (st, db) r
  | step_cancelSession st db st' :
      cancelSession st = Normal st' → step (st, db) (st', db)
  | step_recordTouch point env st db st' :
      recordTouch point env st = Normal st' → step (st, db) (st', db)
  | step_markCellStatus r c s env st db st' :
      markCellStatus r c s env st = Normal st' → step (st, db) (st', db)
  | step_addFaultyArea area env st db st' :
      addFaultyArea area env st = Normal st' → step (st, db) (st', db)
  | step_deleteSession sid st db r :
      deleteSession sid st db = Normal r → step (st, db) r
  | step_resetActiveSession st db st' :
      resetActiveSession st = Normal st' → step (st, db) (st', db).

Definition reachable (w : SessionState * Db) : Prop :=
  ∃ db0, rtc step (initialState, db0) w.

Definition coords (cell : GridCell) : Z * Z := (row cell, col cell).

(** What every reachable store satisfies: the session in the active slot
    has status [active], and its grid, when it has one, holds the cells of
    [buildEmptyGrid] at the same positions. *)
Definition store_inv (st : SessionState) : Prop :=
  ∀ a, activeSession st = Some a →
    sess_status a = active ∧
    ∀ cells, gridCells a = Some cells →
      coords <$> cells = coords <$> buildEmptyGrid.

(** Concrete objects used by the examples below. *)
Definition env0 : Env :=
  {| Date_now := λ k, 1700000000000 + Z.of_nat k;
     random_suffix := λ _, "k3j9x2a" |}.

Definition running : GridTestScreen := {| started := true; finished := false |}.

Definition db_empty : Db :=
  {| sessions_tbl := ∅; touch_points_tbl := []; foreign_keys := false |}.

Definition st_grid : SessionState :=
  match startSession grid None env0 initialState with
  | Normal (_, st) => st
  | Throw _ => initialState
  end.


Definition tp_a : TouchPoint :=
  {| tp_id := "1700000000001-aaaaaaa"; tp_x := 120 # 1; tp_y := 333 # 2;
     tp_timestamp := 1700000000001; tp_pressure := None;
     tp_isGhost := Some true |}.

Definition tp_b : TouchPoint :=
  {| tp_id := "1700000000002-bbbbbbb"; tp_x := 15 # 1; tp_y := 40 # 1;
     tp_timestamp := 1700000000002; tp_pressure := Some (1 # 2);
     tp_isGhost := Some false |}.

Definition session_ab : DiagnosticSession :=
  {| id := "1700000000000-k3j9x2a"; type := ghost_monitor;
     sess_status := completed; startedAt := 1700000000000;
     endedAt := Some 1700000030000; touchPoints := [tp_a; tp_b];
     gridCells := Some buildEmptyGrid;
     faultyAreas :=
       Some [ {| fa_id := "1700000030000-zzzzzzz"; label := "Cell (0,0)";
                 xPercent := 0; yPercent := 0;
                 widthPercent := 50 # 3; heightPercent := 10 # 1;
                 severity := medium; hardwareZone := Some digitizer_top |} ];
     notes := Some "monitor"; deviceModel := None |}.

Definition st_after_press (r c : Z) (st : SessionState) : SessionState :=
  match handleCellPress r c running env0 st with
  | Normal st' => st'
  | Throw _ => st
  end.

Definition st_faulty : SessionState :=
  st_after_press 4 2 (st_after_press 4 2 st_grid).

Definition db_other : Db :=
  {| sessions_tbl :=
       {[ "1690000000000-older01" :=
            {| r_type := grid; r_status := completed;
               r_started_at := 1690000000000;
               r_ended_at := Some 1690000060000;
               r_notes := None; r_device_model := None |} ]};
     touch_points_tbl :=
       [ {| t_id := "1690000000005-ccccccc";
            t_session_id := "1690000000000-older01";
            t_x := 10 # 1; t_y := 20 # 1; t_timestamp := 1690000000005;
            t_pressure := None; t_is_ghost := 0 |} ];
     foreign_keys := false |}.

Definition pt_at (n : string) (px py : Q) : TouchPoint :=
  {| tp_id := n; tp_x := px; tp_y := py; tp_timestamp := 0;
     tp_pressure := None; tp_isGhost := Some true |}.

Definition five_points : list TouchPoint :=
  [pt_at "a" 10 10; pt_at "b" 15 12; pt_at "c" 35 5; pt_at "d" 40 5;
   pt_at "e" (-3) 5].

(** An engine that accepts 65536 arguments in one call. *)
Definition engine0 : Engine := {| max_arguments := 65536 |}.

(** Two touch points that carry the same id. *)
Definition tp_a' : TouchPoint :=
  {| tp_id := tp_id tp_a; tp_x := 7 # 1; tp_y := 9 # 1;
     tp_timestamp := 1700000000001; tp_pressure := None;
     tp_isGhost := Some true |}.

Definition session_dup : DiagnosticSession :=
  {| id := "1700000000000-k3j9x2a"; type := ghost_monitor;
     sess_status := completed; startedAt := 1700000000000;
     endedAt := Some 1700000030000; touchPoints := [tp_a; tp_a'];
     gridCells := None; faultyAreas := Some [];
     notes := None; deviceModel := None |}.

(** A session with the id of [session_ab] and one other touch point. *)
Definition session_ab_other : DiagnosticSession :=
  {| id := id session_ab; type := ghost_monitor;
     sess_status := completed; startedAt := 1700000000000;
     endedAt := Some 1700000030000;
     touchPoints := [pt_at "1700000000009-ddddddd" 1 2];
     gridCells := None; faultyAreas := Some [];
     notes := None; deviceModel := None |}.

(** ** Sequences of calls *)

(** The environment as a call finds it after [t] readings of the clock and
    [r] readings of the random source. *)
Definition shift_env (t r : nat) (env : Env) : Env :=
  {| Date_now := λ k, Date_now env (t + k);
     random_suffix := λ k, random_suffix env (r + k) |}.

(** One statement after another: the second runs when the first completes
    normally. *)
Definition and_then {A B} (c : completion A) (k : A → completion B)
  : completion B :=
  match c with
  | Normal a => k a
  | Throw err => Throw err
  end.

(** The touch point that [recordTouch] builds from its argument. *)
Definition recorded (point : TouchInput) (env : Env) : TouchPoint :=
  {| tp_id := generateId (Date_now env 0) (random_suffix env 0);
     tp_x := in_x point;
     tp_y := in_y point;
     tp_timestamp := in_timestamp point;
     tp_pressure := in_pressure point;
     tp_isGhost := in_isGhost point |}.

(** [recordTouch] called once for each element, each call with its own
    environment. *)
Fixpoint recordTouches (calls : list (TouchInput * Env)) (st : SessionState)
  : completion SessionState :=
  match calls with
  | [] => Normal st
  | (point, env) :: rest =>
      and_then (recordTouch point env st) (recordTouches rest)
  end.

(** The session [a] with other touch points. *)
Definition with_touchPoints (tps : list TouchPoint) (a : DiagnosticSession)
  : DiagnosticSession :=
  {| id := id a; type := type a; sess_status := sess_status a;
     startedAt := startedAt a; endedAt := endedAt a;
     touchPoints := tps;
     gridCells := gridCells a; faultyAreas := faultyAreas a;
     notes := notes a; deviceModel := deviceModel a |}.

(** What holds of a cell of a grid on every run: its count is not
    negative; a count of zero goes with the status [untested] and no time
    of last touch; a positive count goes with a time of last touch. *)
Definition cell_inv (cell : GridCell) : Prop :=
  0 ≤ touchCount cell ∧
  (touchCount cell = 0 → status cell = untested ∧ lastTouched cell = None) ∧
  (0 < touchCount cell → is_Some (lastTouched cell)).

(** What holds of the active session on every run. *)
Definition active_inv (st : SessionState) : Prop :=
  ∀ a, activeSession st = Some a →
    (type a = grid ↔ is_Some (gridCells a)) ∧
    endedAt a = None ∧
    is_Some (faultyAreas a) ∧
    ∀ cells, gridCells a = Some cells →
      length cells = Z.to_nat (GRID_ROWS * GRID_COLS) ∧ Forall cell_inv cells.

(** Two sessions that differ at most in their touch points. *)
Definition same_except_points (a a' : DiagnosticSession) : Prop :=
  id a' = id a ∧ type a' = type a ∧ sess_status a' = sess_status a ∧
  startedAt a' = startedAt a ∧ endedAt a' = endedAt a ∧
  gridCells a' = gridCells a ∧ faultyAreas a' = faultyAreas a ∧
  notes a' = notes a ∧ deviceModel a' = deviceModel a.

Definition st_monitor : SessionState :=
  match startSession ghost_monitor None env0 initialState with
  | Normal (_, st) => st
  | Throw _ => initialState
  end.

Definition touch_in (px py : Q) (ts : Z) : TouchInput :=
  {| in_x := px; in_y := py; in_timestamp := ts; in_pressure := None;
     in_isGhost := Some true |}.

(** ** More of the heatmap screen ([screens/HeatmapScreen.tsx]) *)

(** [Math.round]: the nearest integer, a half going up. *)
Definition Math_round (q : Q) : Z := Qfloor (q + (1 # 2)).

(** The three channels that [heatColor] computes. *)
Definition heat_channels (intensity : Q) : Z * Z * Z :=
  let r := Math_round (Qmin 255 (intensity * 510)) in
  let g := Math_round (Qmax 0 (255 - Qabs (intensity * 510 - 255))) in
  let b := Math_round (Qmax 0 (255 - intensity * 510)) in
  (r, g, b).

Definition heatColor (intensity : Q) : string :=
  let '(r, g, b) := heat_channels intensity in
  "rgb(" +:+ pretty r +:+ "," +:+ pretty g +:+ "," +:+ pretty b +:+ ")".

(** [sessions.find((s) => s.id === sessionId)] and
    [session?.touchPoints ?? []]. *)
Definition screen_session (sessionId : string) (st : SessionState)
  : option DiagnosticSession :=
  List.find (λ s, bool_decide (id s = sessionId)) (sessions st).

Definition screen_points (sessionId : string) (st : SessionState)
  : list TouchPoint :=
  match screen_session sessionId st with
  | Some s => touchPoints s
  | None => []
  end.

(** [buildHeatCells(points, W, HEATMAP_H)] with [HEATMAP_H = W * 1.8]. *)
Definition screen_heatCells (engine : Engine) (sessionId : string) (W : Q)
    (st : SessionState)
  : option (list HeatCell) :=
  buildHeatCells engine (screen_points sessionId st) W (W * (18 # 10)).

(** Whether the bin of a point lies in the grid of a container. *)
Definition in_grid (containerW containerH : Q) (pt : TouchPoint) : Prop :=
  let '(r, c) :=
    bin_of containerW containerH (heat_rows containerH) (heat_cols containerW)
           pt in
  0 ≤ r < heat_rows containerH ∧ 0 ≤ c < heat_cols containerW.

#[global] Instance in_grid_dec W H pt : Decision (in_grid W H pt).
Proof. unfold in_grid. destruct (bin_of _ _ _ _ _). apply _. Defined.

Definition sumZ (l : list Z) : Z := foldr Z.add 0 l.

(** The bins of a grid, rows first. *)
Definition all_bins (rows cols : Z) : list (Z * Z) :=
  r ← seqZ 0 rows; c ← seqZ 0 cols; [(r, c)].

Definition xy (pt : TouchPoint) : Q * Q := (tp_x pt, tp_y pt).

(** [bin_of] as a function of the coordinates alone. *)
Definition bin_xy (containerW containerH : Q) (rows cols : Z) (q : Q * Q)
  : Z * Z :=
  (Qfloor ((q.2 / containerH) * inject_Z rows),
   Qfloor ((q.1 / containerW) * inject_Z cols)).

Definition three_inside : list TouchPoint :=
  [pt_at "a" 10 10; pt_at "b" 15 12; pt_at "c" 35 5].

(** ** The ghost monitor screen ([screens/GhostMonitorScreen.tsx]) *)

Definition GHOST_MONITOR_DURATION_MS : Z := 30000.

Record GhostDot := {
  dot_id : string;
  dot_x : Q;
  dot_y : Q;
  dot_ts : Z;
}.

Inductive Phase := idle | monitoring | finished_phase.

#[global] Instance Phase_eq_dec : EqDecision Phase.
Proof. solve_decision. Defined.

(** The component state of the screen. *)
Record GhostMonitorScreen := {
  phase : Phase;
  timeLeft : Z;
  ghostDots : list GhostDot;
}.

(** The effects of [startMonitoring] on the store and on the component
    state; the animation and the interval timer are not modelled. *)
Definition startMonitoring (env : Env) (st : SessionState)
  : completion (GhostMonitorScreen * SessionState) :=
  and_then (startSession ghost_monitor None env st) (λ '(_, st'),
    Normal ({| phase := monitoring;
               timeLeft := GHOST_MONITOR_DURATION_MS / 1000;
               ghostDots := [] |}, st')).

(** [handleTouchStart] for a touch at ([locationX], [locationY]).  It
    reads the clock and the random source once for the dot (the suffix of
    the dot's id is [slice(2, 7)], the first five characters of the
    reading); [recordTouch] then makes the next readings. *)
Definition handleTouchStart (locationX locationY : Q) (env : Env)
    (ui : GhostMonitorScreen) (st : SessionState)
  : completion (GhostMonitorScreen * SessionState) :=
  if decide (phase ui = monitoring) then
    let ts := Date_now env 0 in
    let dot :=
      {| dot_id := pretty ts +:+ "-" +:+ String.substring 0 5 (random_suffix env 0);
         dot_x := locationX; dot_y := locationY; dot_ts := ts |} in
    and_then
      (recordTouch {| in_x := locationX; in_y := locationY;
                      in_timestamp := ts; in_pressure := None;
                      in_isGhost := Some true |}
                   (shift_env 1 1 env) st)
      (λ st', Normal ({| phase := phase ui; timeLeft := timeLeft ui;
                         ghostDots := ghostDots ui ++ [dot] |}, st'))
  else Normal (ui, st).

(** A sequence of touches, each with its position and its environment. *)
Fixpoint touchStarts (events : list (Q * Q * Env)) (ui : GhostMonitorScreen)
    (st : SessionState) : completion (GhostMonitorScreen * SessionState) :=
  match events with
  | [] => Normal (ui, st)
  | (px, py, env) :: rest =>
      and_then (handleTouchStart px py env ui st)
               (λ '(ui', st'), touchStarts rest ui' st')
  end.

(** ** The session detail screen ([screens/SessionDetailScreen.tsx]) *)

(** [session.touchPoints.length]. *)
Definition detail_touchCount (session : DiagnosticSession) : nat :=
  length (touchPoints session).

(** [session.touchPoints.filter((p) => p.isGhost).length]. *)
Definition detail_ghostCount (session : DiagnosticSession) : nat :=
  length (List.filter (λ p, truthy (tp_isGhost p)) (touchPoints session)).

(** [session.endedAt && session.startedAt
       ? Math.round((session.endedAt - session.startedAt) / 1000) : null]:
    a time of 0 counts as absent. *)
Definition duration (session : DiagnosticSession) : option Z :=
  match endedAt session with
  | Some e =>
      if bool_decide (e ≠ 0) && bool_decide (startedAt session ≠ 0)
      then Some (Math_round (inject_Z (e - startedAt session) / 1000))
      else None
  | None => None
  end.

(** ** Finishing the grid test ([handleFinish] in
    [screens/GridTestScreen.tsx]) *)

(** [c.status === 'faulty' || c.status === 'ghost']. *)
Definition is_faulty_cell (cell : GridCell) : bool :=
  bool_decide (status cell = faulty) || bool_decide (status cell = ghost).

(** Numbers as the engine computes them: IEEE 754 binary64 (53 bits of
    precision, exponents below 1024), every operation rounded to the
    nearest double, ties to even. *)
Definition double : Type := spec_float.

(** The double of an integer literal or an integer-valued number. *)
Definition double_of_Z (n : Z) : double := binary_normalize 53 1024 n 0 false.

Definition double_div (x y : double) : double := SFdiv 53 1024 x y.
Definition double_mul (x y : double) : double := SFmul 53 1024 x y.
Definition double_add (x y : double) : double := SFadd 53 1024 x y.

(** [x <= y]. *)
Definition double_le (x y : double) : bool :=
  match SFcompare x y with
  | Some Lt | Some Eq => true
  | _ => false
  end.

(** The rational that a finite double denotes.  NaN and the infinities,
    which arise here only from integers beyond the range of doubles, are
    outside the model. *)
Definition Q_of_double (x : double) : Q :=
  match x with
  | S754_finite s m e =>
      ((if s then -1 else 1) * inject_Z (Z.pos m) * Qpower 2 e)%Q
  | _ => 0%Q
  end.

(** [(i / n) * 100]. *)
Definition percent (i n : Z) : double :=
  double_mul (double_div (double_of_Z i) (double_of_Z n)) (double_of_Z 100).

(** The area that [handleFinish] builds for a cell. *)
Definition faulty_area_for (cell : GridCell) : FaultyAreaInput :=
  {| in_label :=
       "Cell (" +:+ pretty (row cell) +:+ "," +:+ pretty (col cell) +:+ ")";
     in_xPercent := Q_of_double (percent (col cell) GRID_COLS);
     in_yPercent := Q_of_double (percent (row cell) GRID_ROWS);
     in_widthPercent := Q_of_double (percent 1 GRID_COLS);
     in_heightPercent := Q_of_double (percent 1 GRID_ROWS);
     in_severity := medium;
     in_hardwareZone :=
       Some (zoneForCell (row cell) (col cell) GRID_ROWS GRID_COLS) |}.

(** The loop [for (const cell of faultyCells) addFaultyArea(area)]; [k]
    counts the calls made so far, each of which reads the clock and the
    random source once. *)
Fixpoint addFaultyAreas (cells : list GridCell) (k : nat) (env : Env)
    (st : SessionState) : completion SessionState :=
  match cells with
  | [] => Normal st
  | cell :: rest =>
      and_then (addFaultyArea (faulty_area_for cell) (shift_env k k env) st)
               (addFaultyAreas rest (S k) env)
  end.

(** The effects of [handleFinish] on the component state, the store and
    the database; the alert is not modelled.  As in [handleCellPress],
    [gridCells] are the cells of the store at the time of the call. *)
Definition handleFinish (ui : GridTestScreen) (env : Env)
    (st : SessionState) (db : Db)
  : completion (GridTestScreen * SessionState * Db) :=
  if finished ui then Normal (ui, st, db)
  else
    let ui' := {| started := started ui; finished := true |} in
    let gridCells := screen_gridCells st in
    let faultyCells := List.filter is_faulty_cell gridCells in
    and_then (addFaultyAreas faultyCells 0 env st) (λ st1,
      let untestedCount :=
        length (List.filter (λ c, bool_decide (status c = untested))
                            gridCells) in
      let faultyCount := length faultyCells in
      and_then
        (endSession
           (Some ("Grid test: "
                  +:+ pretty (GRID_ROWS * GRID_COLS - Z.of_nat untestedCount)
                  +:+ " cells tested, "
                  +:+ pretty (Z.of_nat faultyCount) +:+ " faulty."))
           (shift_env faultyCount faultyCount env) st1 db)
        (λ '(st2, db2), Normal (ui', st2, db2))).

(** The faulty area that the k-th call of the loop stores. *)
Definition stored_area (env : Env) (k : nat) (cell : GridCell) : FaultyArea :=
  {| fa_id := generateId (Date_now env k) (random_suffix env k);
     label := in_label (faulty_area_for cell);
     xPercent := in_xPercent (faulty_area_for cell);
     yPercent := in_yPercent (faulty_area_for cell);
     widthPercent := in_widthPercent (faulty_area_for cell);
     heightPercent := in_heightPercent (faulty_area_for cell);
     severity := medium;
     hardwareZone :=
       Some (zoneForCell (row cell) (col cell) GRID_ROWS GRID_COLS) |}.

(** The zones that [zoneForCell] can return. *)
Definition grid_zones : list HardwareZone :=
  [digitizer_top; digitizer_bottom; digitizer_left_edge;
   digitizer_right_edge; lcd_connector].

(** Two sessions that differ at most in their faulty areas. *)
Definition same_except_areas (a a' : DiagnosticSession) : Prop :=
  id a' = id a ∧ type a' = type a ∧ sess_status a' = sess_status a ∧
  startedAt a' = startedAt a ∧ endedAt a' = endedAt a ∧
  touchPoints a' = touchPoints a ∧ gridCells a' = gridCells a ∧
  notes a' = notes a ∧ deviceModel a' = deviceModel a.

(** ** The hardware guide ([constants/index.ts], [types/index.ts]) *)

Record HardwareGuideItem := {
  zone : HardwareZone;
  guide_label : string;
  description : string;
  repairSteps : list string;
  guide_severity : Severity;
}.

Definition HARDWARE_GUIDE : list HardwareGuideItem :=
  [
  {| zone := lcd_connector;
     guide_label := "LCD / Digitizer Connector";
     description :=
       "The ribbon cable connecting the display assembly to the logic board. A loose or dirty connector is the #1 cause of ghost touches.";
     repairSteps :=
       [ "Disconnect battery before touching connectors.";
         "Re-seat the digitizer connector firmly until you hear/feel a click.";
         "Inspect connector pins for bent contacts or debris.";
         "Clean with 99% isopropyl alcohol and a soft brush." ];
     guide_severity := high |};
  {| zone := digitizer_top;
     guide_label := "Digitizer – Top Edge";
     description :=
       "Ghost touches near the top edge often point to damage or contamination on the top section of the digitizer panel.";
     repairSteps :=
       [ "Inspect top edge of the digitizer for cracks or lifting.";
         "Check for moisture or residue under the glass.";
         "Replace digitizer if physical damage is visible." ];
     guide_severity := medium |};
  {| zone := digitizer_bottom;
     guide_label := "Digitizer – Bottom Edge";
     description :=
       "Issues at the bottom can relate to the home button flex or bottom digitizer ribbon.";
     repairSteps :=
       [ "Re-seat the home button flex cable.";
         "Inspect the lower digitizer ribbon for kinks.";
         "Check for debris near the charging port area." ];
     guide_severity := medium |};
  {| zone := digitizer_left_edge;
     guide_label := "Digitizer – Left Edge";
     description :=
       "Consistent ghost touches along the left side suggest edge damage or a warped frame pressing on the digitizer.";
     repairSteps :=
       [ "Inspect the phone frame for bending or warping.";
         "Check for cracks along the left edge of the glass.";
         "Ensure no screws are over-tightened distorting the frame." ];
     guide_severity := medium |};
  {| zone := digitizer_right_edge;
     guide_label := "Digitizer – Right Edge";
     description :=
       "Similar to left-edge issues; also check the power button flex which runs along this side.";
     repairSteps :=
       [ "Re-seat the power/volume button flex cable.";
         "Inspect right edge of frame for physical damage.";
         "Verify no foreign objects between frame and digitizer." ];
     guide_severity := medium |};
  {| zone := front_camera_flex;
     guide_label := "Front Camera Flex Cable";
     description :=
       "The earpiece/camera flex also carries proximity and ambient light sensor data; damage can cause erratic behavior.";
     repairSteps :=
       [ "Re-seat the front camera flex connector.";
         "Inspect flex for tears or creases.";
         "Ensure the earpiece mesh is clean and not dented." ];
     guide_severity := low |};
  {| zone := battery_connector;
     guide_label := "Battery Connector";
     description :=
       "An unstable power supply can cause random digitizer misfires. Always disconnect before working on other components.";
     repairSteps :=
       [ "Disconnect and re-connect the battery connector.";
         "Check battery health in Settings → Battery.";
         "Replace battery if swollen or capacity < 80%." ];
     guide_severity := low |};
  {| zone := full_digitizer;
     guide_label := "Full Digitizer Replacement";
     description :=
       "When ghost touches are spread across the entire screen after all other fixes, the digitizer IC has likely failed.";
     repairSteps :=
       [ "Order a genuine or high-quality OEM digitizer.";
         "Fully replace the display assembly.";
         "Recalibrate True Tone after replacement if applicable." ];
     guide_severity := high |}
  ].

(** [HARDWARE_GUIDE.find((g) => g.zone === selectedZone)]
    ([screens/HardwareGuideScreen.tsx]). *)
Definition selectedGuide (selectedZone : option HardwareZone)
  : option HardwareGuideItem :=
  List.find (λ g, bool_decide (Some (zone g) = selectedZone)) HARDWARE_GUIDE.

(** The hotspots of the diagram ([screens/HardwareGuideScreen.tsx]),
    positions in percent of the container. *)
Record DiagramZone := {
  dz_zone : HardwareZone;
  dz_x : Z;
  dz_y : Z;
  dz_w : Z;
  dz_h : Z;
  dz_label : string;
}.

Definition DIAGRAM_ZONES : list DiagramZone :=
  [ {| dz_zone := digitizer_top; dz_x := 10; dz_y := 5; dz_w := 80;
       dz_h := 12; dz_label := "Top" |};
    {| dz_zone := front_camera_flex; dz_x := 35; dz_y := 6; dz_w := 30;
       dz_h := 6; dz_label := "Cam" |};
    {| dz_zone := digitizer_left_edge; dz_x := 2; dz_y := 18; dz_w := 8;
       dz_h := 65; dz_label := "L" |};
    {| dz_zone := digitizer_right_edge; dz_x := 90; dz_y := 18; dz_w := 8;
       dz_h := 65; dz_label := "R" |};
    {| dz_zone := lcd_connector; dz_x := 25; dz_y := 40; dz_w := 50;
       dz_h := 20;
       dz_label := "LCD" +:+ String (Ascii.ascii_of_nat 10) "Connector" |};
    {| dz_zone := battery_connector; dz_x := 20; dz_y := 62; dz_w := 60;
       dz_h := 10; dz_label := "Battery" |};
    {| dz_zone := digitizer_bottom; dz_x := 10; dz_y := 80; dz_w := 80;
       dz_h := 12; dz_label := "Bottom" |};
    {| dz_zone := home_button_flex; dz_x := 35; dz_y := 84; dz_w := 30;
       dz_h := 8; dz_label := "Home" |} ].

(** [Array.from(new Set(l))]: the elements of [l] without repetition, each
    at the place of its first occurrence. *)
Fixpoint dedupe {A} `{EqDecision A} (l : list A) : list A :=
  match l with
  | [] => []
  | x :: rest => x :: filter (λ y, y ≠ x) (dedupe rest)
  end.

(** [Array.from(new Set(faultyAreas.map((a) => a.hardwareZone)
      .filter(Boolean)))]. *)
Definition uniqueZones (areas : list FaultyArea) : list HardwareZone :=
  dedupe (omap hardwareZone areas).

(** [HARDWARE_GUIDE.filter((g) => uniqueZones.includes(g.zone))]. *)
Definition guideItems (areas : list FaultyArea) : list HardwareGuideItem :=
  filter (λ g, zone g ∈ uniqueZones areas) HARDWARE_GUIDE.

(** ** The progress of the grid test ([screens/GridTestScreen.tsx]) *)

(** [gridCells.filter((c) => c.status !== 'untested').length]. *)
Definition testedCount (gridCells : list GridCell) : nat :=
  length (List.filter (λ c, bool_decide (status c ≠ untested)) gridCells).

(** [gridCells.filter((c) => c.status === 'untested').length], the count
    that [handleFinish] subtracts from the number of cells. *)
Definition untestedCount (gridCells : list GridCell) : nat :=
  length (List.filter (λ c, bool_decide (status c = untested)) gridCells).

Definition totalCells : Z := GRID_ROWS * GRID_COLS.

(** [totalCells > 0 ? testedCount / totalCells : 0]. *)
Definition progress (gridCells : list GridCell) : Q :=
  if decide (0 < totalCells)
  then inject_Z (Z.of_nat (testedCount gridCells)) / inject_Z totalCells
  else 0.

(** The Done button is disabled while [testedCount === 0]. *)
Definition done_disabled (gridCells : list GridCell) : bool :=
  bool_decide (testedCount gridCells = 0%nat).
(** ** Lemmas on the grid *)

Lemma coords_markCells r c s env k cells :
  coords <$> markCells r c s env k cells = coords <$> cells.
Proof.
  revert k. induction cells as [|cell rest IH]; intros k; simpl; [done|].
  destruct (at_cell r c cell); simpl; by rewrite IH.
Qed.

Lemma markCells_no_match r c s env k cells :
  Forall (λ cell, at_cell r c cell = false) cells →
  markCells r c s env k cells = cells.
Proof.
  intros H. revert k. induction H as [|cell rest Hc _ IH]; intros k; simpl; [done|].
  by rewrite Hc, IH.
Qed.

Lemma at_cell_coords r c cell : at_cell r c cell = true ↔ coords cell = (r, c).
Proof.
  unfold at_cell, coords. rewrite andb_true_iff, !Z.eqb_eq.
  split; [intros [-> ->]; done | intros [= -> ->]; done].
Qed.

Lemma elem_of_coords_buildEmptyGrid r c :
  (r, c) ∈ coords <$> buildEmptyGrid ↔
  0 ≤ r < GRID_ROWS ∧ 0 ≤ c < GRID_COLS.
Proof.
  unfold buildEmptyGrid. rewrite list_elem_of_fmap. split.
  - intros (cell & Hrc & Hin).
    apply list_elem_of_bind in Hin as (r' & Hin & Hr').
    apply list_elem_of_bind in Hin as (c' & Hin & Hc').
    apply list_elem_of_singleton in Hin. subst cell.
    injection Hrc as -> ->.
    apply elem_of_seqZ in Hr', Hc'. lia.
  - intros [Hr Hc].
    exists {| row := r; col := c; status := untested; touchCount := 0;
              lastTouched := None |}.
    split; [done|].
    apply list_elem_of_bind. exists r. split; [|apply elem_of_seqZ; unfold GRID_ROWS in *; lia].
    apply list_elem_of_bind. exists c. split; [|apply elem_of_seqZ; unfold GRID_COLS in *; lia].
    by apply list_elem_of_singleton.
Qed.

Lemma find_cell_Some_iff r c cells :
  is_Some (find_cell r c cells) ↔ (r, c) ∈ coords <$> cells.
Proof.
  unfold find_cell. induction cells as [|cell rest IH]; simpl.
  - split; [by intros [? ?] | by intros ?%elem_of_nil].
  - destruct (at_cell r c cell) eqn:E.
    + split; [|by eauto]. intros _. apply at_cell_coords in E.
      rewrite <- E. apply list_elem_of_here.
    + rewrite IH, elem_of_cons. split; [by right|].
      intros [Heq|?]; [|done]. symmetry in Heq.
      apply at_cell_coords in Heq. congruence.
Qed.

Lemma find_cell_None_Forall r c cells :
  find_cell r c cells = None →
  Forall (λ cell, at_cell r c cell = false) cells.
Proof.
  unfold find_cell. induction cells as [|cell rest IH]; simpl; [done|].
  destruct (at_cell r c cell) eqn:E; [done|]. intros H. constructor; auto.
Qed.

Lemma find_cell_markCells r c s env k cells cell :
  find_cell r c cells = Some cell →
  find_cell r c (markCells r c s env k cells) =
    Some {| row := row cell; col := col cell; status := s;
            touchCount := touchCount cell + 1;
            lastTouched := Some (Date_now env k) |}.
Proof.
  unfold find_cell. revert k.
  induction cells as [|cell' rest IH]; intros k; simpl; [done|].
  destruct (at_cell r c cell') eqn:E; simpl.
  - intros [= ->]. unfold at_cell in *. simpl. by rewrite E.
  - rewrite E. apply IH.
Qed.

Lemma in_bounds_find_cell r c cells :
  coords <$> cells = coords <$> buildEmptyGrid →
  0 ≤ r < GRID_ROWS → 0 ≤ c < GRID_COLS →
  is_Some (find_cell r c cells).
Proof.
  intros Hco Hr Hc. apply find_cell_Some_iff. rewrite Hco.
  by apply elem_of_coords_buildEmptyGrid.
Qed.

Lemma out_of_bounds_find_cell r c cells :
  coords <$> cells = coords <$> buildEmptyGrid →
  ¬ (0 ≤ r < GRID_ROWS ∧ 0 ≤ c < GRID_COLS) →
  find_cell r c cells = None.
Proof.
  intros Hco Hout. apply eq_None_not_Some. intros Hs.
  apply find_cell_Some_iff in Hs. rewrite Hco in Hs.
  by apply elem_of_coords_buildEmptyGrid in Hs.
Qed.

(** ** The invariant holds on every run *)

Lemma store_inv_initial : store_inv initialState.
Proof. intros a [=]. Qed.

Lemma store_inv_no_active st : activeSession st = None → store_inv st.
Proof. intros H a. rewrite H. intros [=]. Qed.

Ltac inv_active :=
  match goal with
  | H : Some _ = Some _ |- _ => injection H as <-
  end.

Lemma step_store_inv w w' : step w w' → store_inv w.1 → store_inv w'.1.
Proof.
  intros Hstep Hinv.
  destruct Hstep as
    [st db r H | ty dm env st db s st' H | n env st db r H | st db st' H
    | point env st db st' H | r c s env st db st' H | area env st db st' H
    | sid st db r H | st db st' H]; simpl in *.
  - injection H as <-. exact Hinv.
  - injection H as <- <-. intros a Ha. simpl in Ha. inv_active. simpl.
    split; [done|]. intros cells. destruct (decide (ty = grid)); by intros [= <-].
  - unfold endSession in H.
    destruct (activeSession st) eqn:E; injection H as <-; simpl;
      [by apply store_inv_no_active | exact Hinv].
  - injection H as <-. by apply store_inv_no_active.
  - unfold recordTouch in H.
    destruct (activeSession st) as [a0|] eqn:E; injection H as <-; [|exact Hinv].
    intros a Ha. simpl in Ha. inv_active. simpl. by apply Hinv.
  - unfold markCellStatus in H.
    destruct (activeSession st) as [a0|] eqn:E; [|injection H as <-; exact Hinv].
    destruct (gridCells a0) as [cells0|] eqn:G; injection H as <-; [|exact Hinv].
    intros a Ha. simpl in Ha. inv_active. simpl.
    destruct (Hinv a0 E) as [Hact Hgrid]. split; [done|].
    intros cells [= <-]. rewrite coords_markCells. by apply Hgrid.
  - unfold addFaultyArea in H.
    destruct (activeSession st) as [a0|] eqn:E; injection H as <-; [|exact Hinv].
    intros a Ha. simpl in Ha. inv_active. simpl. by apply Hinv.
  - injection H as <-. exact Hinv.
  - injection H as <-. by apply store_inv_no_active.
Qed.

Lemma reachable_store_inv st db : reachable (st, db) → store_inv st.
Proof.
  intros [db0 Hrun].
  assert (Hgen : ∀ w w', rtc step w w' → store_inv w.1 → store_inv w'.1).
  { induction 1 as [|w1 w2 w3 Hstep _ IH]; [done|].
    intros Hinv. apply IH. by eapply step_store_inv. }
  apply (Hgen _ _ Hrun), store_inv_initial.
Qed.

Lemma reachable_st_grid : reachable (st_grid, db_empty).
Proof.
  exists db_empty. eapply rtc_l; [|apply rtc_refl].
  by eapply (step_startSession grid None env0).
Qed.

(** ** What one call of [markCellStatus] and one press do *)

Lemma markCellStatus_no_match r c s env st a cells :
  activeSession st = Some a → gridCells a = Some cells →
  find_cell r c cells = None →
  markCellStatus r c s env st = Normal st.
Proof.
  intros Ha Hg Hnone. unfold markCellStatus. rewrite Ha, Hg.
  rewrite markCells_no_match by by apply find_cell_None_Forall.
  destruct st, a; simpl in *; by subst.
Qed.

Lemma handleCellPress_found r c ui env st a cells cell :
  started ui = true → finished ui = false →
  activeSession st = Some a → gridCells a = Some cells →
  find_cell r c cells = Some cell →
  ∃ st', handleCellPress r c ui env st = Normal st' ∧
    (∃ a', activeSession st' = Some a' ∧
           gridCells a' = Some (screen_gridCells st')) ∧
    find_cell r c (screen_gridCells st') =
      Some {| row := row cell; col := col cell;
              status := after_press (status cell);
              touchCount := touchCount cell + 1;
              lastTouched := Some (Date_now env 0) |}.
Proof.
  intros Hs Hf Ha Hg Hfind. unfold handleCellPress, after_press.
  rewrite Hs, Hf. simpl. unfold screen_gridCells at 1. rewrite Ha, Hg. simpl.
  rewrite Hfind. unfold markCellStatus. rewrite Ha, Hg.
  destruct (decide (status cell = ok)); eexists; (split; [done|]); simpl;
    (split; [eauto|]); by apply find_cell_markCells.
Qed.

(** ** Session lifecycle *)

(** C1, as stated, fails: with a grid session in the active slot, a call of
    [startSession] does not fail; it completes normally and the slot then
    holds another session. *)
Lemma startSession_while_active_counterexample :
  is_Some (activeSession st_grid) ∧
  ¬ fails (startSession ghost_monitor None env0 st_grid) ∧
  ∃ s st', startSession ghost_monitor None env0 st_grid = Normal (s, st') ∧
           activeSession st' = Some s ∧
           activeSession st' ≠ activeSession st_grid.
Proof.
  split; [by eexists|]. split.
  - intros [err H]. discriminate H.
  - eexists _, _. split; [reflexivity|]. split; [reflexivity|].
    intros H. vm_compute in H. discriminate H.
Qed.

(** C1, amended: [startSession] never fails.  Whatever the active slot
    held, the call completes normally, returns a session with status
    [active], the given type and device model, no touch points, no faulty
    areas and (for the grid type only) the empty grid, and leaves exactly
    that session in the active slot; the history is not changed, so a
    session that was in the slot is dropped. *)
Theorem startSession_installs_new_session ty dm env st :
  ∃ s st', startSession ty dm env st = Normal (s, st') ∧
    activeSession st' = Some s ∧
    sessions st' = sessions st ∧
    sess_status s = active ∧ type s = ty ∧ deviceModel s = dm ∧
    touchPoints s = [] ∧ faultyAreas s = Some [] ∧
    gridCells s = (if decide (ty = grid) then Some buildEmptyGrid else None).
Proof. eexists _, _. by repeat split. Qed.

(** C3, as stated, fails: with the active slot empty, [endSession] does
    not fail; it returns with the store and the database unchanged. *)
Lemma endSession_no_active_counterexample :
  activeSession initialState = None ∧
  ¬ fails (endSession None env0 initialState db_empty) ∧
  endSession None env0 initialState db_empty = Normal (initialState, db_empty).
Proof.
  split; [done|]. split; [|done]. intros [err H]. discriminate H.
Qed.

(** C3, amended: with the active slot empty, [endSession] returns silently
    and changes nothing.  With a session [a] in the slot it completes
    normally: the session is [a] with status [completed], [endedAt] the
    current time and the given notes; it is saved to the database, put at
    the head of the history, and the active slot is emptied. *)
Theorem endSession_effect n env st db :
  (activeSession st = None → endSession n env st db = Normal (st, db)) ∧
  (∀ a, activeSession st = Some a →
     ∃ fin st',
       endSession n env st db = Normal (st', saveSession fin db) ∧
       sess_status fin = completed ∧
       endedAt fin = Some (Date_now env 0) ∧
       notes fin = n ∧
       id fin = id a ∧ type fin = type a ∧ startedAt fin = startedAt a ∧
       touchPoints fin = touchPoints a ∧ gridCells fin = gridCells a ∧
       faultyAreas fin = faultyAreas a ∧ deviceModel fin = deviceModel a ∧
       sessions st' = fin :: sessions st ∧
       activeSession st' = None ∧
       isLoading st' = isLoading st).
Proof.
  unfold endSession. split.
  - by intros ->.
  - intros a ->. eexists _, _. by repeat split.
Qed.

Lemma endSession_effect_witness :
  activeSession initialState = None ∧
  endSession (Some "ok") env0 initialState db_empty
    = Normal (initialState, db_empty) ∧
  ∃ a, activeSession st_grid = Some a ∧
  ∃ fin st',
    endSession (Some "ok") env0 st_grid db_empty
      = Normal (st', saveSession fin db_empty) ∧
    sess_status fin = completed ∧
    sessions st' = fin :: sessions st_grid ∧
    activeSession st' = None.
Proof.
  split; [reflexivity|]. split.
  - apply (endSession_effect (Some "ok") env0 initialState db_empty). reflexivity.
  - eexists. split; [reflexivity|].
    destruct (proj2 (endSession_effect (Some "ok") env0 st_grid db_empty)
                _ eq_refl) as (fin & st' & H).
    exists fin, st'. tauto.
Defined.

(** ** Grid cells *)

(** C2, as stated, fails: on a grid session, marking a cell outside the
    grid does not fail; the call returns. *)
Lemma markCellStatus_out_of_bounds_counterexample :
  (∃ a cells, activeSession st_grid = Some a ∧ gridCells a = Some cells) ∧
  ¬ (0 ≤ GRID_ROWS < GRID_ROWS) ∧
  ¬ fails (markCellStatus GRID_ROWS 0 ok env0 st_grid) ∧
  markCellStatus GRID_ROWS 0 ok env0 st_grid = Normal st_grid.
Proof.
  split; [by eexists _, _|]. split; [lia|]. split.
  - intros [err H]. discriminate H.
  - reflexivity.
Qed.

(** C2, amended: on every reachable store whose active session has a
    grid, [markCellStatus] with a row outside [0, GRID_ROWS) or a column
    outside [0, GRID_COLS) returns without an error and leaves the store
    as it was: every cell keeps its status, touchCount and lastTouched. *)
Theorem markCellStatus_outside_grid_unchanged r c s env st db a cells :
  reachable (st, db) →
  activeSession st = Some a → gridCells a = Some cells →
  ¬ (0 ≤ r < GRID_ROWS ∧ 0 ≤ c < GRID_COLS) →
  markCellStatus r c s env st = Normal st ∧
  markCells r c s env 0 cells = cells.
Proof.
  intros Hreach Ha Hg Hout.
  destruct (reachable_store_inv _ _ Hreach a Ha) as [_ Hgrid].
  pose proof (out_of_bounds_find_cell r c cells (Hgrid _ Hg) Hout) as Hnone.
  split; [by eapply markCellStatus_no_match|].
  by apply markCells_no_match, find_cell_None_Forall.
Qed.

Lemma markCellStatus_outside_grid_unchanged_witness :
  markCellStatus 3 (-1) faulty env0 st_grid = Normal st_grid ∧
  markCells 3 (-1) faulty env0 0 buildEmptyGrid = buildEmptyGrid.
Proof.
  apply (markCellStatus_outside_grid_unchanged 3 (-1) faulty env0 st_grid db_empty
           _ buildEmptyGrid reachable_st_grid eq_refl eq_refl).
  unfold GRID_ROWS, GRID_COLS. lia.
Defined.

(** C4: on every reachable store whose active session has a grid, while
    the test runs, every position inside the grid holds a cell; if that
    cell is untested with touchCount 0, a first press makes it ok with
    touchCount 1 and a second press makes it faulty with touchCount 2. *)
Theorem press_twice_untested_cell r c ui env1 env2 st db a cells :
  reachable (st, db) →
  started ui = true → finished ui = false →
  activeSession st = Some a → gridCells a = Some cells →
  0 ≤ r < GRID_ROWS → 0 ≤ c < GRID_COLS →
  ∃ cell, find_cell r c cells = Some cell ∧
    (status cell = untested → touchCount cell = 0 →
     ∃ st1 cell1 st2 cell2,
       handleCellPress r c ui env1 st = Normal st1 ∧
       find_cell r c (screen_gridCells st1) = Some cell1 ∧
       status cell1 = ok ∧ touchCount cell1 = 1 ∧
       handleCellPress r c ui env2 st1 = Normal st2 ∧
       find_cell r c (screen_gridCells st2) = Some cell2 ∧
       status cell2 = faulty ∧ touchCount cell2 = 2).
Proof.
  intros Hreach Hs Hf Ha Hg Hr Hc.
  destruct (reachable_store_inv _ _ Hreach a Ha) as [_ Hgrid].
  destruct (in_bounds_find_cell r c cells (Hgrid _ Hg) Hr Hc) as [cell Hfind].
  exists cell. split; [done|]. intros Hst Htc.
  destruct (handleCellPress_found r c ui env1 st a cells cell Hs Hf Ha Hg Hfind)
    as (st1 & Hp1 & (a1 & Ha1 & Hg1) & Hfind1).
  destruct (handleCellPress_found r c ui env2 st1 a1 _ _ Hs Hf Ha1 Hg1 Hfind1)
    as (st2 & Hp2 & _ & Hfind2).
  simpl in Hfind2. rewrite Hst, Htc in *.
  eexists st1, _, st2, _. repeat split; eauto.
Qed.

Lemma press_twice_untested_cell_witness :
  ∃ st1 cell1 st2 cell2,
    handleCellPress 4 2 running env0 st_grid = Normal st1 ∧
    find_cell 4 2 (screen_gridCells st1) = Some cell1 ∧
    status cell1 = ok ∧ touchCount cell1 = 1 ∧
    handleCellPress 4 2 running env0 st1 = Normal st2 ∧
    find_cell 4 2 (screen_gridCells st2) = Some cell2 ∧
    status cell2 = faulty ∧ touchCount cell2 = 2.
Proof.
  destruct (press_twice_untested_cell 4 2 running env0 env0 st_grid db_empty
              _ buildEmptyGrid reachable_st_grid eq_refl eq_refl eq_refl eq_refl
              ltac:(unfold GRID_ROWS; lia) ltac:(unfold GRID_COLS; lia))
    as (cell & Hfind & Hpress).
  injection Hfind as <-. by apply Hpress.
Defined.

(** C10: while the test runs, a press on a cell that is faulty or ghost
    makes it ok and adds one to its touchCount; after a press the cell is
    faulty exactly when it was ok before, so faulty is not kept by a
    further press. *)
Theorem press_faulty_or_ghost_cell r c ui env st a cells cell :
  started ui = true → finished ui = false →
  activeSession st = Some a → gridCells a = Some cells →
  find_cell r c cells = Some cell →
  ∃ st' cell',
    handleCellPress r c ui env st = Normal st' ∧
    find_cell r c (screen_gridCells st') = Some cell' ∧
    touchCount cell' = touchCount cell + 1 ∧
    (status cell = faulty ∨ status cell = ghost → status cell' = ok) ∧
    (status cell' = faulty ↔ status cell = ok).
Proof.
  intros Hs Hf Ha Hg Hfind.
  destruct (handleCellPress_found r c ui env st a cells cell Hs Hf Ha Hg Hfind)
    as (st' & Hp & _ & Hfind').
  eexists st', _. split; [done|]. split; [done|]. simpl.
  unfold after_press. split; [done|].
  destruct (decide (status cell = ok)) as [E|E].
  - rewrite E. split; [intros [?|?]; done | done].
  - split; [done|]. split; [done | intros ?; done].
Qed.

(** C10 at a cell made faulty by two presses. *)
Lemma press_faulty_or_ghost_cell_witness :
  ∃ st' cell',
    handleCellPress 4 2 running env0 st_faulty = Normal st' ∧
    find_cell 4 2 (screen_gridCells st') = Some cell' ∧
    touchCount cell' = 3 ∧ status cell' = ok.
Proof.
  destruct (press_faulty_or_ghost_cell 4 2 running env0 st_faulty _ _
              {| row := 4; col := 2; status := faulty; touchCount := 2;
                 lastTouched := Some 1700000000000 |}
              eq_refl eq_refl eq_refl eq_refl eq_refl)
    as (st' & cell' & Hpress & Hfind & Hcount & Hok & _).
  exists st', cell'. repeat split; [done..|]. apply Hok. by left.
Defined.

(** ** Hardware zones *)

(** C5: inside the grid, [zoneForCell] is the ordered rule of the
    specification, top and bottom rows before left and right columns; the
    corner (0, 0) is in [digitizer_top]. *)
Theorem zoneForCell_ordered_rule r c totalRows totalCols :
  0 ≤ r < totalRows → 0 ≤ c < totalCols →
  zoneForCell r c totalRows totalCols = zone_rule r c totalRows totalCols ∧
  zoneForCell 0 0 totalRows totalCols = digitizer_top.
Proof.
  intros Hr Hc. split; [|reflexivity].
  unfold zoneForCell, zone_rule.
  destruct (Z.ltb_spec r 2); [by rewrite decide_True by lia|].
  rewrite decide_False by lia.
  rewrite Z.geb_leb.
  destruct (Z.leb_spec (totalRows - 2) r); [by rewrite decide_True by lia|].
  rewrite decide_False by lia.
  destruct (Z.eqb_spec c 0); [by rewrite decide_True|].
  rewrite decide_False by done.
  destruct (Z.eqb_spec c (totalCols - 1)); [by rewrite decide_True|].
  by rewrite decide_False.
Qed.

Lemma zoneForCell_ordered_rule_witness :
  zoneForCell 9 0 GRID_ROWS GRID_COLS = zone_rule 9 0 GRID_ROWS GRID_COLS ∧
  zoneForCell 0 0 GRID_ROWS GRID_COLS = digitizer_top.
Proof.
  apply (zoneForCell_ordered_rule 9 0 GRID_ROWS GRID_COLS);
    unfold GRID_ROWS, GRID_COLS; lia.
Defined.

(** ** The database *)

Lemma filter_none {A} (P : A → Prop) `{∀ x, Decision (P x)} (l : list A) :
  Forall (λ x, ¬ P x) l → filter P l = [].
Proof.
  induction 1 as [|x l Hx _ IH]; [done|].
  by rewrite filter_cons_False.
Qed.

Lemma filter_all {A} (P : A → Prop) `{∀ x, Decision (P x)} (l : list A) :
  Forall P l → filter P l = l.
Proof.
  induction 1 as [|x l Hx _ IH]; [done|].
  by rewrite filter_cons_True, IH.
Qed.

Lemma saveSession_unfold s db :
  saveSession s db =
  insert_points (id s) (touchPoints s)
    (replace_session (id s)
       {| r_type := type s; r_status := sess_status s;
          r_started_at := startedAt s; r_ended_at := endedAt s;
          r_notes := notes s; r_device_model := deviceModel s |} db).
Proof.
  unfold saveSession, insert_points.
  destruct (touchPoints s); [done|].
  rewrite bool_decide_eq_true_2; [done | simpl; lia].
Qed.

Lemma insert_points_sessions sid pts db :
  sessions_tbl (insert_points sid pts db) = sessions_tbl db.
Proof.
  revert db. induction pts as [|tp pts IH]; intros db; [done|].
  unfold insert_points in *. simpl. by rewrite IH.
Qed.

Lemma insert_points_touch_points sid pts db :
  NoDup (tp_id <$> pts) →
  touch_points_tbl (insert_points sid pts db) =
    filter (λ u, t_id u ∉ tp_id <$> pts) (touch_points_tbl db)
    ++ (touch_row sid <$> pts).
Proof.
  revert db. induction pts as [|tp pts IH]; intros db Hnd.
  - simpl. rewrite app_nil_r. symmetry. apply filter_all.
    apply Forall_forall. intros u _. apply not_elem_of_nil.
  - rewrite fmap_cons in Hnd. apply NoDup_cons in Hnd as [Hfresh Hnd].
    unfold insert_points in *. simpl. rewrite IH by done. simpl.
    rewrite filter_app, list_filter_filter.
    rewrite (filter_all _ [_]); [|by repeat constructor].
    rewrite <- app_assoc. simpl. f_equal.
    apply list_filter_iff. intros u. rewrite not_elem_of_cons. tauto.
Qed.

Lemma replace_session_touch_points_subseteq sid r db :
  touch_points_tbl (replace_session sid r db) ⊆ touch_points_tbl db.
Proof.
  unfold replace_session, delete_touch_points_of. simpl.
  destruct (sessions_tbl db !! sid); [|done].
  destruct (foreign_keys db); [|done].
  intros t Ht. by apply list_elem_of_filter in Ht as [_ Ht].
Qed.

Lemma touch_point_of_touch_row sid tp :
  touch_point_of_row (touch_row sid tp) = as_stored tp.
Proof.
  unfold touch_point_of_row, touch_row, as_stored. simpl. f_equal. f_equal.
  by destruct (truthy (tp_isGhost tp)).
Qed.

Lemma as_stored_defined tp : is_Some (tp_isGhost tp) → as_stored tp = tp.
Proof. destruct tp as [? ? ? ? ? [[|]|]]; intros [b Hb]; by simplify_eq/=. Qed.

Lemma observed_as_stored tp : observed (as_stored tp) = observed tp.
Proof. unfold observed, as_stored. simpl. by destruct (tp_isGhost tp) as [[|]|]. Qed.

Lemma getSessionById_saveSession s db :
  NoDup (tp_id <$> touchPoints s) →
  (∀ t, t ∈ touch_points_tbl db → t_session_id t = id s →
        t_id t ∈ tp_id <$> touchPoints s) →
  getSessionById (id s) (saveSession s db) =
    Some {| id := id s; type := type s; sess_status := sess_status s;
            startedAt := startedAt s; endedAt := endedAt s;
            touchPoints := as_stored <$> touchPoints s;
            gridCells := None; faultyAreas := Some [];
            notes := notes s; deviceModel := deviceModel s |}.
Proof.
  intros Hnd Hstale. rewrite saveSession_unfold. unfold getSessionById.
  rewrite insert_points_sessions. simpl. rewrite lookup_insert_eq.
  rewrite insert_points_touch_points by done.
  rewrite filter_app.
  rewrite filter_none; [rewrite filter_all|].
  - unfold session_of_row. simpl. f_equal. f_equal.
    rewrite <- list_fmap_compose. apply list_fmap_ext.
    intros _ tp _. apply touch_point_of_touch_row.
  - apply Forall_fmap, Forall_forall. by intros tp _.
  - apply Forall_forall. intros t Ht Hsid.
    apply list_elem_of_filter in Ht as [Hfresh Ht].
    apply replace_session_touch_points_subseteq in Ht.
    by apply Hfresh, Hstale.
Qed.

(** C8, as stated, fails: a completed session with two touch points that
    carry the same id is saved and read back with one touch point, since
    the second [INSERT OR REPLACE] replaces the row of the first. *)
Lemma saveSession_duplicate_ids_counterexample :
  sess_status session_dup = completed ∧
  length (touchPoints session_dup) = 2%nat ∧
  ∃ s', getSessionById (id session_dup) (saveSession session_dup db_empty)
          = Some s' ∧
        touchPoints s' = [tp_a'] ∧
        length (touchPoints s') = 1%nat.
Proof.
  split; [done|]. split; [done|]. eexists. split; [|split]; by vm_compute.
Qed.

(** Two more facts behind the amended statement.  With foreign keys not
    enforced, touch points already stored under the session's id and not
    part of the session stay in the table and come back with it; and an
    undefined ghost flag comes back as [false]. *)
Example saveSession_keeps_other_rows :
  touchPoints <$>
    getSessionById (id session_ab)
      (saveSession session_ab_other (saveSession session_ab db_empty))
  = Some [tp_a; tp_b; pt_at "1700000000009-ddddddd" 1 2].
Proof. by vm_compute. Qed.

Example as_stored_undefined_flag tp :
  tp_isGhost tp = None → tp_isGhost (as_stored tp) = Some false.
Proof. unfold as_stored. simpl. by intros ->. Qed.

(** C8, amended: a session whose touch points have pairwise distinct ids,
    saved to a database in which every touch point stored under the
    session's id is one of the session's, is found by its id, and its touch
    points come back in the same order with the same count, coordinates,
    timestamps and ghost flags read by truth value (and the same ids and
    pressures); when every ghost flag is defined the list that comes back
    is the list that was saved. *)
Theorem saveSession_getSessionById_round_trip s db :
  NoDup (tp_id <$> touchPoints s) →
  (∀ t, t ∈ touch_points_tbl db → t_session_id t = id s →
        t_id t ∈ tp_id <$> touchPoints s) →
  ∃ s', getSessionById (id s) (saveSession s db) = Some s' ∧
    touchPoints s' = as_stored <$> touchPoints s ∧
    length (touchPoints s') = length (touchPoints s) ∧
    observed <$> touchPoints s' = observed <$> touchPoints s ∧
    (Forall (λ tp, is_Some (tp_isGhost tp)) (touchPoints s) →
     touchPoints s' = touchPoints s).
Proof.
  intros Hnd Hstale. eexists. split; [by apply getSessionById_saveSession|].
  simpl. split; [done|]. split; [by rewrite length_fmap|]. split.
  - rewrite <- list_fmap_compose. apply list_fmap_ext.
    intros _ tp _. apply observed_as_stored.
  - intros Hdef. rewrite <- (list_fmap_id (touchPoints s)) at 2.
    apply Forall_fmap_ext_1. eapply Forall_impl; [exact Hdef|].
    intros tp. apply as_stored_defined.
Qed.

Lemma saveSession_getSessionById_round_trip_witness :
  ∃ s', getSessionById (id session_ab) (saveSession session_ab db_other) = Some s' ∧
    touchPoints s' = as_stored <$> touchPoints session_ab ∧
    length (touchPoints s') = length (touchPoints session_ab) ∧
    observed <$> touchPoints s' = observed <$> touchPoints session_ab ∧
    (Forall (λ tp, is_Some (tp_isGhost tp)) (touchPoints session_ab) →
     touchPoints s' = touchPoints session_ab).
Proof.
  apply (saveSession_getSessionById_round_trip session_ab db_other).
  - apply NoDup_cons. split; [|apply NoDup_singleton].
    intros H%list_elem_of_singleton. discriminate H.
  - intros t Ht Hsid. apply list_elem_of_singleton in Ht. subst t.
    discriminate Hsid.
Defined.

(** C9: [saveSession] writes the same database whatever the session's
    grid cells and faulty areas are; the saved session is found again by
    its id and in the list of sessions; and every session that
    [getSessionById] or [getSessions] returns, from any database, has no
    grid cells and an empty list of faulty areas. *)
Theorem gridCells_faultyAreas_not_persisted s db :
  (∀ g f, saveSession (with_grid_and_areas g f s) db = saveSession s db) ∧
  (∃ s', getSessionById (id s) (saveSession s db) = Some s' ∧
         gridCells s' = None ∧ faultyAreas s' = Some []) ∧
  id s ∈ id <$> getSessions (saveSession s db) ∧
  (∀ db' sid s', getSessionById sid db' = Some s' →
     gridCells s' = None ∧ faultyAreas s' = Some []) ∧
  (∀ db', Forall (λ s', gridCells s' = None ∧ faultyAreas s' = Some [])
                 (getSessions db')).
Proof.
  split; [done|]. split; [|split; [|split]].
  - rewrite saveSession_unfold. unfold getSessionById.
    rewrite insert_points_sessions. simpl. rewrite lookup_insert_eq.
    by eexists.
  - rewrite saveSession_unfold. unfold getSessions.
    rewrite insert_points_sessions. simpl.
    rewrite <- list_fmap_compose. apply list_elem_of_fmap.
    eexists (id s, _). split; [done|].
    rewrite merge_sort_Permutation. apply elem_of_map_to_list.
    apply lookup_insert_eq.
  - intros db' sid s'. unfold getSessionById.
    destruct (sessions_tbl db' !! sid); [|done]. by intros [= <-].
  - intros db'. unfold getSessions. apply Forall_fmap, Forall_forall.
    by intros kv _.
Qed.

Lemma gridCells_faultyAreas_not_persisted_witness :
  saveSession (with_grid_and_areas None None session_ab) db_other
    = saveSession session_ab db_other ∧
  gridCells session_ab = Some buildEmptyGrid ∧
  gridCells <$> getSessionById (id session_ab) (saveSession session_ab db_other)
    = Some None ∧
  faultyAreas <$> getSessionById (id session_ab) (saveSession session_ab db_other)
    = Some (Some []).
Proof.
  pose proof (gridCells_faultyAreas_not_persisted session_ab db_other)
    as (Hsame & (s' & Hget & Hg & Hf) & _).
  split; [apply Hsame|]. split; [reflexivity|].
  rewrite Hget. simpl. by rewrite Hg, Hf.
Defined.

(** ** The heatmap aggregation *)

Lemma concat_fmap_bind {A B} (f : A → list B) (l : list A) :
  concat (f <$> l) = l ≫= f.
Proof. induction l as [|x l IH]; [done|]. by rewrite fmap_cons, bind_cons, <- IH. Qed.

Lemma mapM_Some_fmap {A B} (f : A → option B) (g : A → B) (l : list A) :
  (∀ x, x ∈ l → f x = Some (g x)) → mapM f l = Some (g <$> l).
Proof.
  intros Hf. apply mapM_Some, Forall2_fmap_r, Forall_Forall2_diag.
  apply Forall_forall. intros x Hx. by apply Hf.
Qed.

Lemma lookup_fmap_seqZ {A} (g : Z → A) n i :
  0 ≤ i < n → (g <$> seqZ 0 n) !! Z.to_nat i = Some (g i).
Proof.
  intros Hi. rewrite list_lookup_fmap, lookup_seqZ_lt by lia.
  simpl. do 2 f_equal. lia.
Qed.

Lemma at_index_fmap_seqZ {A} (g : Z → A) n i :
  0 ≤ i < n → at_index (g <$> seqZ 0 n) i = Some (g i).
Proof.
  intros Hi. unfold at_index. rewrite decide_True by lia.
  by apply lookup_fmap_seqZ.
Qed.

Lemma insert_fmap_seqZ {A} (g : Z → A) n k v :
  0 ≤ k < n →
  <[Z.to_nat k := v]> (g <$> seqZ 0 n) =
    (λ i, if decide (i = k) then v else g i) <$> seqZ 0 n.
Proof.
  intros Hk. apply list_eq. intros i.
  destruct (decide (i = Z.to_nat k)) as [->|Hne].
  - rewrite list_lookup_insert_eq
      by (rewrite length_fmap, length_seqZ; lia).
    rewrite lookup_fmap_seqZ by lia. by rewrite decide_True.
  - rewrite list_lookup_insert_ne by done.
    rewrite !list_lookup_fmap.
    destruct (seqZ 0 n !! i) as [j|] eqn:E; [|done]. simpl.
    apply lookup_seqZ in E as [-> _]. rewrite decide_False by lia. done.
Qed.

Lemma replicate_fmap_seqZ {A} (v : A) n :
  replicate (Z.to_nat n) v = (λ _, v) <$> seqZ 0 n.
Proof.
  symmetry. rewrite <- (length_seqZ 0 n). by apply const_fmap.
Qed.

(** The grid of the aggregation, seen as the table of a function of the
    row and the column. *)
Section grid_as_table.
Context (W H : Q) (rows cols : Z).

Lemma tabulate_ext f g :
  (∀ r c, 0 ≤ r < rows → 0 ≤ c < cols → f r c = g r c) →
  tabulate rows cols f = tabulate rows cols g.
Proof.
  intros Hfg. unfold tabulate. apply list_fmap_ext.
  intros _ r Hr%list_elem_of_lookup_2%elem_of_seqZ.
  apply list_fmap_ext.
  intros _ c Hc%list_elem_of_lookup_2%elem_of_seqZ.
  apply Hfg; lia.
Qed.

Lemma new_grid_tabulate :
  rows ≤ MAX_ARRAY_LENGTH → 0 ≤ cols ≤ MAX_ARRAY_LENGTH →
  new_grid rows cols = Some (tabulate rows cols (λ _ _, 0)).
Proof.
  intros Hr Hc. unfold new_grid, tabulate. rewrite decide_True by done.
  apply mapM_Some_fmap.
  intros r _. unfold new_row. rewrite decide_True by done.
  by rewrite replicate_fmap_seqZ.
Qed.

Lemma new_grid_too_large :
  0 < rows → ¬ (rows ≤ MAX_ARRAY_LENGTH ∧ 0 ≤ cols ≤ MAX_ARRAY_LENGTH) →
  new_grid rows cols = None.
Proof.
  intros Hr Hbig. unfold new_grid.
  destruct (decide (rows ≤ MAX_ARRAY_LENGTH)) as [Hrows|]; [|done].
  rewrite (seqZ_cons 0 rows) by lia.
  change (mapM ?f (?x :: ?l)) with (y ← f x; k ← mapM f l; mret (y :: k)).
  unfold new_row. rewrite decide_False by tauto. done.
Qed.

Lemma length_concat_tabulate f :
  0 ≤ rows → 0 ≤ cols →
  Z.of_nat (length (concat (tabulate rows cols f))) = rows * cols.
Proof.
  intros Hr Hc. unfold tabulate.
  assert (∀ l : list Z,
            length (concat ((λ r, f r <$> seqZ 0 cols) <$> l))
            = (length l * Z.to_nat cols)%nat) as Hlen.
  { induction l as [|r l IH]; [done|].
    rewrite fmap_cons. simpl. rewrite length_app, IH, length_fmap, length_seqZ.
    lia. }
  rewrite Hlen, length_seqZ. lia.
Qed.

Lemma Math_max_1_tabulate engine f :
  0 ≤ rows → 0 ≤ cols →
  Math_max_1 engine (concat (tabulate rows cols f)) =
    if decide (1 + rows * cols ≤ max_arguments engine)
    then Some (max_with_1 (concat (tabulate rows cols f)))
    else None.
Proof.
  intros Hr Hc. unfold Math_max_1. by rewrite length_concat_tabulate.
Qed.

Lemma at2_tabulate f r c :
  0 ≤ r < rows → 0 ≤ c < cols → at2 (tabulate rows cols f) r c = Some (f r c).
Proof.
  intros Hr Hc. unfold at2, tabulate.
  rewrite at_index_fmap_seqZ by done. simpl.
  by rewrite at_index_fmap_seqZ.
Qed.

Lemma bump_tabulate f r c :
  0 ≤ r < rows → 0 ≤ c < cols →
  bump r c (tabulate rows cols f) =
    Some (tabulate rows cols
            (λ r' c', if decide (r' = r ∧ c' = c) then f r c + 1 else f r' c')).
Proof.
  intros Hr Hc. unfold bump, tabulate.
  rewrite at_index_fmap_seqZ by done. simpl.
  rewrite at_index_fmap_seqZ by done. simpl. f_equal.
  rewrite !insert_fmap_seqZ by done.
  apply list_fmap_ext. intros _ r' _.
  destruct (decide (r' = r)) as [->|Hne].
  - apply list_fmap_ext. intros _ c' _.
    destruct (decide (c' = c)) as [->|Hne'].
    + by rewrite decide_True.
    + by rewrite decide_False by (intros [_ ?]; done).
  - apply list_fmap_ext. intros _ c' _.
    by rewrite decide_False by (intros [? _]; done).
Qed.

Lemma bin_count_cons pt pts r c :
  bin_count W H rows cols (pt :: pts) r c =
    (if decide (bin_of W H rows cols pt = (r, c)) then 1 else 0)
    + bin_count W H rows cols pts r c.
Proof.
  unfold bin_count. rewrite filter_cons.
  destruct (decide (bin_of W H rows cols pt = (r, c))); simpl; lia.
Qed.

Lemma count_points_cons pt pts grid :
  count_points W H rows cols (pt :: pts) grid =
    let '(r, c) := bin_of W H rows cols pt in
    if decide (0 ≤ r ∧ r < rows ∧ 0 ≤ c ∧ c < cols)
    then grid' ← bump r c grid; count_points W H rows cols pts grid'
    else count_points W H rows cols pts grid.
Proof. reflexivity. Qed.

Lemma count_points_tabulate pts f :
  count_points W H rows cols pts (tabulate rows cols f) =
    Some (tabulate rows cols (λ r c, f r c + bin_count W H rows cols pts r c)).
Proof.
  revert f. induction pts as [|pt pts IH]; intros f.
  - simpl. f_equal. apply tabulate_ext. intros r c _ _.
    unfold bin_count. rewrite filter_nil. simpl. lia.
  - rewrite count_points_cons.
    destruct (bin_of W H rows cols pt) as [r0 c0] eqn:Hbin.
    destruct (decide (0 ≤ r0 ∧ r0 < rows ∧ 0 ≤ c0 ∧ c0 < cols)) as [Hin|Hout].
    + rewrite bump_tabulate by lia. simpl. rewrite IH. f_equal.
      apply tabulate_ext. intros r c _ _.
      rewrite bin_count_cons, Hbin.
      destruct (decide (r = r0 ∧ c = c0)) as [[-> ->]|Hne].
      * rewrite decide_True by done. lia.
      * rewrite decide_False by (intros [= -> ->]; by apply Hne). lia.
    + rewrite IH. f_equal.
      apply tabulate_ext. intros r c Hr Hc.
      rewrite bin_count_cons, Hbin.
      rewrite decide_False by (intros [= -> ->]; apply Hout; lia). lia.
Qed.

Lemma concat_tabulate f :
  concat (tabulate rows cols f) = r ← seqZ 0 rows; c ← seqZ 0 cols; [f r c].
Proof.
  unfold tabulate. rewrite concat_fmap_bind.
  apply Forall_bind_ext, Forall_forall. intros r _.
  induction (seqZ 0 cols) as [|c l IH]; [done|].
  by rewrite fmap_cons, bind_cons, IH.
Qed.

Lemma scan_tabulate f m :
  scan rows cols (tabulate rows cols f) m =
    Some (r ← seqZ 0 rows; c ← seqZ 0 cols;
          if decide (0 < f r c) then [heat_cell m r c (f r c)] else []).
Proof.
  unfold scan.
  rewrite (mapM_Some_fmap _
    (λ r, c ← seqZ 0 cols;
          if decide (0 < f r c) then [heat_cell m r c (f r c)] else [])).
  - simpl. by rewrite concat_fmap_bind.
  - intros r Hr%elem_of_seqZ.
    rewrite (mapM_Some_fmap _
      (λ c, if decide (0 < f r c) then [heat_cell m r c (f r c)] else [])).
    + simpl. by rewrite concat_fmap_bind.
    + intros c Hc%elem_of_seqZ. unfold emit.
      by rewrite at2_tabulate by lia.
Qed.

End grid_as_table.

Lemma bind_all_nil {A B} (g : A → list B) (l : list A) :
  (∀ x, x ∈ l → g x = []) → l ≫= g = [].
Proof.
  induction l as [|x l IH]; intros Hg; [done|].
  rewrite bind_cons, Hg by apply list_elem_of_here.
  apply IH. intros y Hy. by apply Hg, list_elem_of_further.
Qed.

Lemma bind_seqZ_single {B} (g : Z → list B) n k :
  0 ≤ k < n → (∀ i, 0 ≤ i < n → i ≠ k → g i = []) →
  seqZ 0 n ≫= g = g k.
Proof.
  intros Hk Hg.
  replace n with (k + (1 + (n - k - 1))) by lia.
  rewrite !seqZ_app by lia. rewrite !bind_app.
  rewrite (bind_all_nil g (seqZ 0 k))
    by (intros i Hi%elem_of_seqZ; apply Hg; lia).
  rewrite (bind_all_nil g (seqZ _ (n - k - 1)))
    by (intros i Hi%elem_of_seqZ; apply Hg; lia).
  rewrite (seqZ_cons _ 1), (seqZ_nil _ (Z.pred 1)) by lia.
  rewrite bind_singleton, app_nil_r. simpl. by rewrite Z.add_0_l.
Qed.

Lemma length_bind_le {A B} (g : A → list B) (l : list A) (k : nat) :
  (∀ x, x ∈ l → (length (g x) ≤ k)%nat) →
  (length (l ≫= g) ≤ length l * k)%nat.
Proof.
  induction l as [|x l IH]; intros Hg; [done|].
  rewrite bind_cons, length_app. simpl.
  pose proof (Hg x (list_elem_of_here _ _)).
  assert (length (l ≫= g) ≤ length l * k)%nat
    by (apply IH; intros y Hy; by apply Hg, list_elem_of_further).
  lia.
Qed.

Lemma max_with_1_ge l : 1 ≤ max_with_1 l.
Proof.
  induction l as [|x l IH]; [done|].
  change (max_with_1 (x :: l)) with (Z.max x (max_with_1 l)). lia.
Qed.

Lemma max_with_1_small l : (∀ x, x ∈ l → x ≤ 1) → max_with_1 l = 1.
Proof.
  induction l as [|x l IH]; intros Hl; [done|].
  pose proof (Hl x (list_elem_of_here _ _)).
  change (max_with_1 (x :: l)) with (Z.max x (max_with_1 l)).
  rewrite IH; [lia|].
  intros y Hy. by apply Hl, list_elem_of_further.
Qed.

Lemma Qceiling_div_pos (w : Q) : (0 < w)%Q → 1 ≤ Qceiling (w / inject_Z cellSize).
Proof.
  intros Hw.
  assert (0 < w / inject_Z cellSize)%Q as Hpos.
  { apply Qmult_lt_0_compat; [done|]. by apply Qinv_lt_0_compat. }
  pose proof (Qle_ceiling (w / inject_Z cellSize)) as Hle.
  assert (0 < Qceiling (w / inject_Z cellSize)); [|lia].
  rewrite Zlt_Qlt. eapply Qlt_le_trans; eauto.
Qed.

Lemma heat_cells_spec_nil W H : heat_cells_spec [] W H = [].
Proof.
  unfold heat_cells_spec, heat_count.
  apply bind_all_nil. intros r _. apply bind_all_nil. intros c _.
  unfold bin_count. by rewrite filter_nil.
Qed.

(** What [buildHeatCells] does for positive dimensions: with no points,
    or on a grid that fits the engine, it computes what the specification
    describes; with points on a grid that does not fit, it throws. *)
Lemma buildHeatCells_outcome engine points W H :
  (0 < W)%Q → (0 < H)%Q →
  buildHeatCells engine points W H =
    if decide (points = [] ∨ grid_fits engine W H)
    then Some (heat_cells_spec points W H)
    else None.
Proof.
  intros HW HH.
  pose proof (Qceiling_div_pos W HW) as Hcols.
  pose proof (Qceiling_div_pos H HH) as Hrows.
  unfold buildHeatCells.
  fold (heat_rows H) (heat_cols W) in *.
  destruct (decide (length points = 0%nat)) as [Hnil|Hne].
  { apply nil_length_inv in Hnil. subst points.
    rewrite decide_True by (by left). by rewrite heat_cells_spec_nil. }
  assert (points ≠ []) as Hpts by (by intros ->).
  destruct (decide (heat_rows H ≤ MAX_ARRAY_LENGTH
                    ∧ 0 ≤ heat_cols W ≤ MAX_ARRAY_LENGTH)) as [[Hr Hc]|Hbig].
  - rewrite new_grid_tabulate by done. simpl.
    rewrite count_points_tabulate. simpl.
    rewrite Math_max_1_tabulate by lia.
    destruct (decide (1 + heat_rows H * heat_cols W ≤ max_arguments engine))
      as [Hargs|Hargs].
    + rewrite decide_True by (right; unfold grid_fits; lia). simpl.
      unfold heat_cells_spec, heat_maxCount, heat_count.
      rewrite (tabulate_ext _ _ _
                 (bin_count W H (heat_rows H) (heat_cols W) points))
        by (intros; lia).
      by rewrite concat_tabulate, scan_tabulate.
    + rewrite decide_False; [done|].
      intros [?|(_ & _ & ?)]; [done | lia].
  - rewrite new_grid_too_large by (done || lia). simpl.
    rewrite decide_False; [done|].
    intros [?|(? & ? & _)]; [done | apply Hbig; lia].
Qed.

(** [buildHeatCells] computes what the specification describes. *)
Lemma buildHeatCells_refines engine points W H :
  (0 < W)%Q → (0 < H)%Q → grid_fits engine W H →
  buildHeatCells engine points W H = Some (heat_cells_spec points W H).
Proof.
  intros HW HH Hfits. rewrite buildHeatCells_outcome by done.
  by rewrite decide_True by (by right).
Qed.

(** On a grid that does not fit the engine, a list with at least one point
    makes [buildHeatCells] throw. *)
Lemma buildHeatCells_too_large engine points W H :
  (0 < W)%Q → (0 < H)%Q → points ≠ [] → ¬ grid_fits engine W H →
  buildHeatCells engine points W H = None.
Proof.
  intros HW HH Hpts Hfits. rewrite buildHeatCells_outcome by done.
  by rewrite decide_False by tauto.
Qed.

(** Whatever [buildHeatCells] returns is what the specification
    describes. *)
Lemma buildHeatCells_Some engine points W H cells :
  (0 < W)%Q → (0 < H)%Q →
  buildHeatCells engine points W H = Some cells →
  cells = heat_cells_spec points W H.
Proof.
  intros HW HH. rewrite buildHeatCells_outcome by done.
  destruct (decide _); [by intros [= <-] | done].
Qed.

Lemma elem_of_heat_cells_spec hc points W H :
  hc ∈ heat_cells_spec points W H ↔
  ∃ r c, 0 ≤ r < heat_rows H ∧ 0 ≤ c < heat_cols W ∧
    0 < heat_count points W H r c ∧
    hc = heat_cell (heat_maxCount points W H) r c (heat_count points W H r c).
Proof.
  unfold heat_cells_spec. rewrite list_elem_of_bind. split.
  - intros (r & Hin & Hr%elem_of_seqZ).
    apply list_elem_of_bind in Hin as (c & Hin & Hc%elem_of_seqZ).
    destruct (decide (0 < _)) as [Hpos|]; [|by apply elem_of_nil in Hin].
    apply list_elem_of_singleton in Hin.
    exists r, c. repeat split; try lia; done.
  - intros (r & c & Hr & Hc & Hpos & ->).
    exists r. split; [|apply elem_of_seqZ; lia].
    apply list_elem_of_bind. exists c. split; [|apply elem_of_seqZ; lia].
    rewrite decide_True by done. by apply list_elem_of_singleton.
Qed.

Lemma length_heat_cells_spec points W H :
  (length (heat_cells_spec points W H)
   ≤ Z.to_nat (heat_rows H) * Z.to_nat (heat_cols W))%nat.
Proof.
  unfold heat_cells_spec.
  rewrite <- (length_seqZ 0 (heat_rows H)).
  apply length_bind_le. intros r _.
  rewrite <- (Nat.mul_1_r (Z.to_nat (heat_cols W))).
  rewrite <- (length_seqZ 0 (heat_cols W)).
  apply length_bind_le. intros c _.
  destruct (decide (0 < _)); simpl; lia.
Qed.

Lemma NoDup_heat_cells_spec points W H :
  NoDup (position <$> heat_cells_spec points W H).
Proof.
  apply NoDup_fmap_2_strong.
  - intros hc1 hc2 (r1 & c1 & _ & _ & _ & ->)%elem_of_heat_cells_spec
      (r2 & c2 & _ & _ & _ & ->)%elem_of_heat_cells_spec.
    unfold position, heat_cell, cellSize. simpl. intros [= Hr Hc].
    assert (r1 = r2) as -> by lia. assert (c1 = c2) as -> by lia. done.
  - unfold heat_cells_spec. apply NoDup_bind; [| |apply NoDup_seqZ].
    + intros r1 r2 hc _ _
        (c1 & Hin1 & _)%list_elem_of_bind (c2 & Hin2 & _)%list_elem_of_bind.
      destruct (decide (0 < _)); [|by apply elem_of_nil in Hin1].
      destruct (decide (0 < _)); [|by apply elem_of_nil in Hin2].
      apply list_elem_of_singleton in Hin1, Hin2. subst hc.
      apply (f_equal hc_y) in Hin2. unfold heat_cell, cellSize in Hin2. simpl in Hin2. lia.
    + intros r _. apply NoDup_bind; [| |apply NoDup_seqZ].
      * intros c1 c2 hc _ _ Hin1 Hin2.
        destruct (decide (0 < _)); [|by apply elem_of_nil in Hin1].
        destruct (decide (0 < _)); [|by apply elem_of_nil in Hin2].
        apply list_elem_of_singleton in Hin1, Hin2. subst hc.
        apply (f_equal hc_x) in Hin2. unfold heat_cell, cellSize in Hin2. simpl in Hin2. lia.
      * intros c _. destruct (decide (0 < _)); [apply NoDup_singleton|apply NoDup_nil_2].
Qed.

Lemma heat_count_single pt W H r c :
  heat_count [pt] W H r c =
    if decide (bin_of W H (heat_rows H) (heat_cols W) pt = (r, c))
    then 1 else 0.
Proof.
  unfold heat_count. rewrite bin_count_cons.
  unfold bin_count. rewrite filter_nil. simpl.
  destruct (decide _); lia.
Qed.

(** The grid of a container of 40 by 40 fits [engine0]. *)
Lemma grid_fits_40 : grid_fits engine0 40 40.
Proof. by vm_compute. Defined.

(** C7, as stated, fails: the grid of a container of 7200 by 7200 has
    360 * 360 bins, whose counts are all passed to one call of [Math.max];
    an engine that accepts 65536 arguments refuses the call, so one point
    inside the container makes [buildHeatCells] throw.  And whatever the
    engine accepts, a row of 2^32 bins cannot be allocated. *)
Lemma buildHeatCells_large_grid_counterexample :
  ((0 < 7200)%Q ∧
   buildHeatCells engine0 [pt_at "p" 5 5] 7200 7200 = None) ∧
  ((0 < 85899345920)%Q ∧ (0 < 20)%Q ∧
   ∀ engine, buildHeatCells engine [pt_at "p" 5 5] 85899345920 20 = None).
Proof.
  split.
  - split; [reflexivity|].
    apply buildHeatCells_too_large; [reflexivity | reflexivity | done |].
    intros (_ & _ & Hargs). vm_compute in Hargs. by apply Hargs.
  - split; [reflexivity|]. split; [reflexivity|]. intros engine.
    apply buildHeatCells_too_large; [reflexivity | reflexivity | done |].
    intros (_ & Hcols & _). vm_compute in Hcols. by apply Hcols.
Qed.

(** C7, amended: for positive container dimensions whose grid fits the
    engine (at most 2^32 - 1 rows and columns, and one argument more than
    rows * cols accepted in a call) [buildHeatCells] returns a list,
    with no access outside the grid it allocated.  The list holds exactly
    one cell for each bin of the grid that received at least one point, at
    that bin's position and with the number of points of that bin as its
    count; points whose bin is outside the grid are counted nowhere.  So
    every cell has count at least 1, no two cells share a position, and
    there are at most rows * cols cells. *)
Theorem buildHeatCells_total_sparse engine points W H :
  (0 < W)%Q → (0 < H)%Q → grid_fits engine W H →
  ∃ cells, buildHeatCells engine points W H = Some cells ∧
    (∀ hc, hc ∈ cells ↔
       ∃ r c, 0 ≤ r < heat_rows H ∧ 0 ≤ c < heat_cols W ∧
         0 < heat_count points W H r c ∧
         hc = heat_cell (heat_maxCount points W H) r c
                        (heat_count points W H r c)) ∧
    NoDup (position <$> cells) ∧
    Forall (λ hc, 1 ≤ count hc) cells ∧
    Z.of_nat (length cells) ≤ heat_rows H * heat_cols W.
Proof.
  intros HW HH Hfits. exists (heat_cells_spec points W H).
  split; [by apply buildHeatCells_refines|].
  split; [intros hc; apply elem_of_heat_cells_spec|].
  split; [apply NoDup_heat_cells_spec|]. split.
  - apply Forall_forall.
    intros hc (r & c & _ & _ & Hpos & ->)%elem_of_heat_cells_spec.
    simpl. lia.
  - pose proof (length_heat_cells_spec points W H) as Hlen.
    pose proof (Qceiling_div_pos W HW) as Hc.
    pose proof (Qceiling_div_pos H HH) as Hr.
    fold (heat_cols W) in Hc. fold (heat_rows H) in Hr. nia.
Qed.

Lemma buildHeatCells_total_sparse_witness :
  ∃ cells, buildHeatCells engine0 five_points 40 40 = Some cells ∧
    (∀ hc, hc ∈ cells ↔
       ∃ r c, 0 ≤ r < heat_rows 40 ∧ 0 ≤ c < heat_cols 40 ∧
         0 < heat_count five_points 40 40 r c ∧
         hc = heat_cell (heat_maxCount five_points 40 40) r c
                        (heat_count five_points 40 40 r c)) ∧
    NoDup (position <$> cells) ∧
    Forall (λ hc, 1 ≤ count hc) cells ∧
    Z.of_nat (length cells) ≤ heat_rows 40 * heat_cols 40.
Proof.
  apply (buildHeatCells_total_sparse engine0 five_points 40 40);
    [reflexivity | reflexivity | exact grid_fits_40].
Defined.

(** C6, as stated, fails: a single point on the right edge of the
    container (x equal to the width) falls in column [cols], outside the
    grid, and the result is the empty list rather than one cell. *)
Lemma single_point_on_edge_counterexample :
  (0 < 40)%Q ∧
  buildHeatCells engine0 [pt_at "edge" 40 5] 40 40 = Some [] ∧
  ¬ ∃ hc, buildHeatCells engine0 [pt_at "edge" 40 5] 40 40 = Some [hc].
Proof.
  split; [reflexivity|]. split; [reflexivity|].
  intros [hc Hhc]. vm_compute in Hhc. discriminate Hhc.
Qed.

(** C6, amended: for positive container dimensions whose grid fits the
    engine (at most 2^32 - 1 rows and columns, and one argument more than
    rows * cols accepted in a call) and a single point, if the point's bin
    lies inside the grid then [buildHeatCells] returns exactly one cell, at
    that bin, with count 1 and normalizedIntensity 1; if the bin lies
    outside the grid it returns the empty list.  For the empty point list
    it returns the empty list whatever the dimensions and the engine,
    before any arithmetic; and the divisor [maxCount], when [Math.max]
    returns it, is never below 1. *)
Theorem buildHeatCells_single_point engine pt W H :
  (0 < W)%Q → (0 < H)%Q → grid_fits engine W H →
  buildHeatCells engine [pt] W H =
    Some (let '(r, c) := bin_of W H (heat_rows H) (heat_cols W) pt in
          if decide (0 ≤ r < heat_rows H ∧ 0 ≤ c < heat_cols W)
          then [ {| hc_x := c * cellSize; hc_y := r * cellSize;
                    count := 1; normalizedIntensity := 1 |} ]
          else []) ∧
  (∀ engine' W' H', buildHeatCells engine' [] W' H' = Some []) ∧
  (∀ engine' counts maxCount,
     Math_max_1 engine' counts = Some maxCount → 1 ≤ maxCount).
Proof.
  intros HW HH Hfits. split; [|split; [done|]].
  2:{ intros engine' counts maxCount. unfold Math_max_1.
      destruct (decide _); [|done]. intros [= <-]. apply max_with_1_ge. }
  rewrite buildHeatCells_refines by done. f_equal.
  unfold heat_cells_spec.
  destruct (bin_of W H (heat_rows H) (heat_cols W) pt) as [r0 c0] eqn:Hbin.
  destruct (decide (0 ≤ r0 < heat_rows H ∧ 0 ≤ c0 < heat_cols W))
    as [[Hr Hc]|Hout].
  - assert (heat_maxCount [pt] W H = 1) as ->.
    { apply max_with_1_small.
      intros x (r & Hx & _)%list_elem_of_bind.
      apply list_elem_of_bind in Hx as (c & Hx & _).
      apply list_elem_of_singleton in Hx. subst x.
      rewrite heat_count_single. destruct (decide _); lia. }
    rewrite (bind_seqZ_single _ (heat_rows H) r0); [|done|]; last first.
    { intros r _ Hne. apply bind_all_nil. intros c _.
      rewrite heat_count_single, Hbin.
      by rewrite (decide_False (P := (r0, c0) = (r, c))) by congruence. }
    rewrite (bind_seqZ_single _ (heat_cols W) c0); [|done|]; last first.
    { intros c _ Hne. rewrite heat_count_single, Hbin.
      by rewrite (decide_False (P := (r0, c0) = (r0, c))) by congruence. }
    rewrite heat_count_single, Hbin.
    by rewrite (decide_True (P := (r0, c0) = (r0, c0))) by done.
  - apply bind_all_nil. intros r Hr%elem_of_seqZ.
    apply bind_all_nil. intros c Hc%elem_of_seqZ.
    rewrite heat_count_single, Hbin.
    by rewrite (decide_False (P := (r0, c0) = (r, c)))
      by (intros [= -> ->]; apply Hout; lia).
Qed.

Lemma buildHeatCells_single_point_witness :
  buildHeatCells engine0 [pt_at "p" 39 5] 40 40 =
    Some [ {| hc_x := 20; hc_y := 0; count := 1; normalizedIntensity := 1 |} ] ∧
  (∀ engine' W' H', buildHeatCells engine' [] W' H' = Some []) ∧
  (∀ engine' counts maxCount,
     Math_max_1 engine' counts = Some maxCount → 1 ≤ maxCount).
Proof.
  exact (buildHeatCells_single_point engine0 (pt_at "p" 39 5) 40 40
           eq_refl eq_refl grid_fits_40).
Defined.

(** ** More on the session store *)

Lemma length_markCells r c s env k cells :
  length (markCells r c s env k cells) = length cells.
Proof.
  rewrite <- (length_fmap coords), coords_markCells. apply length_fmap.
Qed.

Lemma markCells_cell_inv r c s env k cells :
  Forall cell_inv cells → Forall cell_inv (markCells r c s env k cells).
Proof.
  intros H. revert k. induction H as [|cell rest Hc _ IH]; intros k; simpl;
    [done|].
  destruct (at_cell r c cell); constructor; auto.
  destruct Hc as (Hge & _ & _). unfold cell_inv. simpl.
  split; [lia|]. split; [intros; lia | by eauto].
Qed.

Lemma buildEmptyGrid_cell_inv : Forall cell_inv buildEmptyGrid.
Proof.
  apply Forall_forall. intros cell Hin. unfold buildEmptyGrid in Hin.
  apply list_elem_of_bind in Hin as (r & Hin & _).
  apply list_elem_of_bind in Hin as (c & Hin & _).
  apply list_elem_of_singleton in Hin. subst cell.
  unfold cell_inv. simpl. split; [lia|]. split; [done | lia].
Qed.

Lemma step_active_inv w w' : step w w' → active_inv w.1 → active_inv w'.1.
Proof.
  intros Hstep Hinv.
  destruct Hstep as
    [st db r H | ty dm env st db s st' H | n env st db r H | st db st' H
    | point env st db st' H | r c s env st db st' H | area env st db st' H
    | sid st db r H | st db st' H]; simpl in *.
  - injection H as <-. exact Hinv.
  - injection H as <- <-. intros a Ha. simpl in Ha. inv_active. simpl.
    destruct (decide (ty = grid)) as [->|Hne].
    + split; [split; by eauto|]. split; [done|]. split; [by eauto|].
      intros cells [= <-]. split; [reflexivity | apply buildEmptyGrid_cell_inv].
    + split; [split; [done | intros [? [=]]]|].
      split; [done|]. split; [by eauto|]. intros cells [=].
  - unfold endSession in H.
    destruct (activeSession st) eqn:E; injection H as <-; simpl;
      [by intros a [=] | exact Hinv].
  - injection H as <-. by intros a [=].
  - unfold recordTouch in H.
    destruct (activeSession st) as [a0|] eqn:E; injection H as <-; [|exact Hinv].
    intros a Ha. simpl in Ha. inv_active. simpl. by apply Hinv.
  - unfold markCellStatus in H.
    destruct (activeSession st) as [a0|] eqn:E; [|injection H as <-; exact Hinv].
    destruct (gridCells a0) as [cells0|] eqn:G; injection H as <-; [|exact Hinv].
    intros a Ha. simpl in Ha. inv_active. simpl.
    destruct (Hinv a0 E) as (Hty & Hend & Hfa & Hgrid).
    destruct (Hgrid _ G) as [Hlen Hcells].
    split; [split; [by eauto | intros _; apply Hty; rewrite G; by eauto]|].
    split; [done|]. split; [done|].
    intros cells [= <-]. rewrite length_markCells.
    split; [done | by apply markCells_cell_inv].
  - unfold addFaultyArea in H.
    destruct (activeSession st) as [a0|] eqn:E; injection H as <-; [|exact Hinv].
    intros a Ha. simpl in Ha. inv_active. simpl.
    destruct (Hinv a0 E) as (Hty & Hend & Hfa & Hgrid). by eauto.
  - injection H as <-. exact Hinv.
  - injection H as <-. by intros a [=].
Qed.

Lemma reachable_active_inv st db : reachable (st, db) → active_inv st.
Proof.
  intros [db0 Hrun].
  assert (Hgen : ∀ w w', rtc step w w' → active_inv w.1 → active_inv w'.1).
  { induction 1 as [|w1 w2 w3 Hstep _ IH]; [done|].
    intros Hinv. apply IH. by eapply step_active_inv. }
  apply (Hgen _ _ Hrun). by intros a [=].
Qed.

Lemma reachable_step w w' : reachable w → step w w' → reachable w'.
Proof. intros [db0 Hrun] Hstep. exists db0. by eapply rtc_r. Qed.

Lemma reachable_st_faulty : reachable (st_faulty, db_empty).
Proof.
  eapply reachable_step;
    [eapply reachable_step; [apply reachable_st_grid|]|].
  - by apply (step_markCellStatus 4 2 ok env0 st_grid db_empty).
  - by apply (step_markCellStatus 4 2 faulty env0 _ db_empty).
Qed.

Lemma NoDup_coords_buildEmptyGrid : NoDup (coords <$> buildEmptyGrid).
Proof.
  unfold buildEmptyGrid.
  apply NoDup_fmap_2_strong.
  - intros x y Hx Hy Hxy.
    apply list_elem_of_bind in Hx as (r1 & Hx & _).
    apply list_elem_of_bind in Hx as (c1 & Hx & _).
    apply list_elem_of_bind in Hy as (r2 & Hy & _).
    apply list_elem_of_bind in Hy as (c2 & Hy & _).
    apply list_elem_of_singleton in Hx, Hy. subst x y.
    injection Hxy as -> ->. done.
  - apply NoDup_bind; [| |apply NoDup_seqZ].
    + intros r1 r2 cell _ _ (c1 & H1 & _)%list_elem_of_bind
        (c2 & H2 & _)%list_elem_of_bind.
      apply list_elem_of_singleton in H1, H2. subst cell. by injection H2.
    + intros r _. apply NoDup_bind; [| |apply NoDup_seqZ].
      * intros c1 c2 cell _ _ H1%list_elem_of_singleton
          H2%list_elem_of_singleton.
        subst cell. by injection H2.
      * intros c _. apply NoDup_singleton.
Qed.

(** X1: on every run of the store, the session in the active slot has
    status [active] and no end time, has a grid exactly when its type is
    [grid], and that grid has GRID_ROWS * GRID_COLS cells, at the positions
    of the empty grid in the same order (so no position twice), each with a
    count that is not negative, zero only for a cell that is untested and
    was never touched, positive only with a time of last touch. *)
Theorem reachable_grid_invariant st db a :
  reachable (st, db) → activeSession st = Some a →
  sess_status a = active ∧ endedAt a = None ∧
  (type a = grid ↔ is_Some (gridCells a)) ∧
  ∀ cells, gridCells a = Some cells →
    length cells = Z.to_nat (GRID_ROWS * GRID_COLS) ∧
    coords <$> cells = coords <$> buildEmptyGrid ∧
    NoDup (coords <$> cells) ∧
    Forall cell_inv cells.
Proof.
  intros Hreach Ha.
  destruct (reachable_store_inv _ _ Hreach a Ha) as [Hact Hco].
  destruct (reachable_active_inv _ _ Hreach a Ha) as (Hty & Hend & _ & Hgrid).
  repeat split; try done; try apply Hty.
  - by apply Hgrid.
  - by apply Hco.
  - rewrite (Hco _ H). apply NoDup_coords_buildEmptyGrid.
  - by apply Hgrid.
Qed.

Lemma reachable_grid_invariant_witness :
  sess_status (default session_ab (activeSession st_faulty)) = active ∧
  ∃ cells, gridCells (default session_ab (activeSession st_faulty)) = Some cells ∧
    length cells = 60%nat ∧ NoDup (coords <$> cells) ∧ Forall cell_inv cells.
Proof.
  destruct (reachable_grid_invariant st_faulty db_empty _
              reachable_st_faulty eq_refl) as (Hact & _ & _ & Hgrid).
  split; [exact Hact|]. eexists. split; [reflexivity|].
  destruct (Hgrid _ eq_refl) as (Hlen & _ & Hnd & Hcells). by repeat split.
Defined.

Lemma find_cell_markCells_other r c s env k cells r' c' :
  (r', c') ≠ (r, c) →
  find_cell r' c' (markCells r c s env k cells) = find_cell r' c' cells.
Proof.
  intros Hne. unfold find_cell. revert k.
  induction cells as [|cell rest IH]; intros k; simpl; [done|].
  destruct (at_cell r c cell) eqn:E; simpl.
  - assert (at_cell r' c' cell = false) as Hf.
    { apply not_true_is_false. intros E'.
      apply at_cell_coords in E, E'. congruence. }
    rewrite Hf. unfold at_cell in Hf |- *. simpl. rewrite Hf. apply IH.
  - destruct (at_cell r' c' cell); [done | apply IH].
Qed.

(** X2: [markCellStatus] changes no cell other than the one at the given
    position: every other position of the grid reads as before, the grid
    keeps its length, and the touch points, the faulty areas, the id of the
    session and the history are left as they were. *)
Theorem markCellStatus_other_cells r c s env st a cells r' c' :
  activeSession st = Some a → gridCells a = Some cells →
  (r', c') ≠ (r, c) →
  ∃ st' a',
    markCellStatus r c s env st = Normal st' ∧
    activeSession st' = Some a' ∧
    find_cell r' c' (screen_gridCells st') = find_cell r' c' cells ∧
    length (screen_gridCells st') = length cells ∧
    id a' = id a ∧ touchPoints a' = touchPoints a ∧
    faultyAreas a' = faultyAreas a ∧ sess_status a' = sess_status a ∧
    sessions st' = sessions st.
Proof.
  intros Ha Hg Hne. unfold markCellStatus. rewrite Ha, Hg.
  eexists _, _. split; [done|]. split; [done|]. simpl.
  split; [by apply find_cell_markCells_other|].
  split; [apply length_markCells | done].
Qed.

Lemma markCellStatus_other_cells_witness :
  ∃ st' a',
    markCellStatus 0 0 ok env0 st_faulty = Normal st' ∧
    activeSession st' = Some a' ∧
    find_cell 4 2 (screen_gridCells st') =
      Some {| row := 4; col := 2; status := faulty; touchCount := 2;
              lastTouched := Some 1700000000000 |} ∧
    length (screen_gridCells st') = 60%nat.
Proof.
  destruct (markCellStatus_other_cells 0 0 ok env0 st_faulty _ _ 4 2
              eq_refl eq_refl ltac:(discriminate))
    as (st' & a' & H1 & H2 & H3 & H4 & _).
  by exists st', a'.
Defined.

(** X3: on every run of the store, while the active slot is empty or holds
    a session whose type is not [grid], [markCellStatus] and
    [handleCellPress] leave the store as it is. *)
Theorem markCellStatus_needs_grid_session r c s ui env st db :
  reachable (st, db) →
  (∀ a, activeSession st = Some a → type a ≠ grid) →
  markCellStatus r c s env st = Normal st ∧
  handleCellPress r c ui env st = Normal st.
Proof.
  intros Hreach Hty.
  pose proof (reachable_active_inv _ _ Hreach) as Hinv.
  unfold handleCellPress, screen_gridCells, markCellStatus.
  destruct (activeSession st) as [a|] eqn:Ha.
  - destruct (Hinv a Ha) as (Hgrid & _).
    destruct (gridCells a) as [cells|] eqn:Hg.
    + exfalso. apply (Hty a eq_refl), Hgrid. by eauto.
    + simpl. split; [done|]. by destruct (negb (started ui) || finished ui).
  - split; [done|]. by destruct (negb (started ui) || finished ui).
Qed.

Lemma reachable_st_monitor : reachable (st_monitor, db_empty).
Proof.
  exists db_empty. eapply rtc_l; [|apply rtc_refl].
  by eapply (step_startSession ghost_monitor None env0).
Qed.

Lemma markCellStatus_needs_grid_session_witness :
  markCellStatus 1 1 ok env0 st_monitor = Normal st_monitor ∧
  handleCellPress 1 1 running env0 st_monitor = Normal st_monitor.
Proof.
  apply (markCellStatus_needs_grid_session 1 1 ok running env0 st_monitor
           db_empty reachable_st_monitor).
  intros a [= <-]. discriminate.
Defined.

(** X4: a sequence of calls of [recordTouch] on a store with an active
    session appends one touch point for each call, in the order of the
    calls, each with the coordinates, timestamp, pressure and ghost flag
    that were passed, and changes nothing else of the session or of the
    history; on a store with no active session the calls change nothing. *)
Theorem recordTouches_appends calls st :
  (activeSession st = None → recordTouches calls st = Normal st) ∧
  (∀ a, activeSession st = Some a →
     ∃ st' a',
       recordTouches calls st = Normal st' ∧
       activeSession st' = Some a' ∧
       touchPoints a' =
         touchPoints a ++ ((λ call, recorded call.1 call.2) <$> calls) ∧
       length (touchPoints a') = (length (touchPoints a) + length calls)%nat ∧
       same_except_points a a' ∧
       sessions st' = sessions st).
Proof.
  revert st. induction calls as [|[point env] rest IH]; intros st.
  - split; [done|]. intros a Ha. exists st, a. simpl.
    rewrite app_nil_r, Nat.add_0_r. by repeat split.
  - split.
    + intros Hnone. simpl. unfold recordTouch. rewrite Hnone. simpl.
      by apply IH.
    + intros a Ha. simpl. unfold recordTouch. rewrite Ha. simpl.
      match goal with
      | |- context [recordTouches rest ?s] =>
          destruct (proj2 (IH s) _ eq_refl)
            as (st' & a' & Hrun & Ha' & Hpts & Hlen & Hsame & Hs)
      end.
      simpl in *. exists st', a'. split; [done|]. split; [done|].
      split; [by rewrite Hpts, <- app_assoc|].
      split; [rewrite Hlen, length_app; simpl; lia|]. split; [|done].
      unfold same_except_points in *. simpl in *. tauto.
Qed.

Lemma recordTouches_appends_witness :
  ∃ st' a',
    recordTouches [(touch_in 10 20 5, env0); (touch_in 30 40 6, env0)] st_monitor
      = Normal st' ∧
    activeSession st' = Some a' ∧
    observed <$> touchPoints a' =
      [(10%Q, 20%Q, 5, true); (30%Q, 40%Q, 6, true)] ∧
    length (touchPoints a') = 2%nat.
Proof.
  destruct (proj2 (recordTouches_appends
                     [(touch_in 10 20 5, env0); (touch_in 30 40 6, env0)]
                     st_monitor) _ eq_refl)
    as (st' & a' & Hrun & Ha' & Hpts & Hlen & _).
  exists st', a'. split; [exact Hrun|]. split; [exact Ha'|].
  split; [by rewrite Hpts | by rewrite Hlen].
Defined.

(** X5: [cancelSession] empties the active slot and leaves the history as
    it is; it changes nothing when the slot is already empty.  After it,
    [endSession] saves nothing and adds nothing to the history, and
    [recordTouch], [markCellStatus] and [addFaultyArea] change nothing. *)
Theorem cancelSession_discards st db :
  ∃ st',
    cancelSession st = Normal st' ∧
    activeSession st' = None ∧ sessions st' = sessions st ∧
    cancelSession st' = Normal st' ∧
    (∀ n env, endSession n env st' db = Normal (st', db)) ∧
    (∀ point env, recordTouch point env st' = Normal st') ∧
    (∀ r c s env, markCellStatus r c s env st' = Normal st') ∧
    (∀ area env, addFaultyArea area env st' = Normal st').
Proof. eexists. by repeat split. Qed.

(** ** More on the database *)

Lemma Db_eq (a b : Db) :
  sessions_tbl a = sessions_tbl b →
  touch_points_tbl a = touch_points_tbl b →
  foreign_keys a = foreign_keys b → a = b.
Proof. destruct a, b. simpl. by intros -> -> ->. Qed.

Lemma insert_points_foreign_keys sid pts db :
  foreign_keys (insert_points sid pts db) = foreign_keys db.
Proof.
  revert db. induction pts as [|tp pts IH]; intros db; [done|].
  unfold insert_points in *. simpl. by rewrite IH.
Qed.

Lemma ids_getSessions db sid :
  sid ∈ id <$> getSessions db ↔ is_Some (sessions_tbl db !! sid).
Proof.
  unfold getSessions. rewrite <- list_fmap_compose.
  rewrite list_elem_of_fmap. split.
  - intros ([k r] & -> & Hin). rewrite merge_sort_Permutation in Hin.
    apply elem_of_map_to_list in Hin. simpl. by eauto.
  - intros [r Hr]. exists (sid, r). split; [done|].
    rewrite merge_sort_Permutation. by apply elem_of_map_to_list.
Qed.

Lemma touch_rows_other_session sid sid' pts db :
  sid' ≠ sid →
  filter (λ t, t_session_id t = sid')
         (touch_points_tbl (insert_points sid pts db)) =
  filter (λ t, t_session_id t = sid' ∧ t_id t ∉ tp_id <$> pts)
         (touch_points_tbl db).
Proof.
  intros Hne. revert db. induction pts as [|tp pts IH]; intros db.
  - simpl. apply list_filter_iff. intros t. split; [|tauto].
    intros ?. split; [done | apply not_elem_of_nil].
  - unfold insert_points in *. simpl. rewrite IH. simpl.
    rewrite filter_app, list_filter_filter.
    rewrite (filter_none _ [_]), app_nil_r.
    + apply list_filter_iff. intros t. rewrite ?fmap_cons, not_elem_of_cons.
      simpl. tauto.
    + repeat constructor. simpl. intros [? _]. by apply Hne.
Qed.

Lemma touch_rows_replace_session sid sid' r db :
  sid' ≠ sid →
  filter (λ t, t_session_id t = sid')
         (touch_points_tbl (replace_session sid r db)) =
  filter (λ t, t_session_id t = sid') (touch_points_tbl db).
Proof.
  intros Hne. unfold replace_session, delete_touch_points_of. simpl.
  destruct (sessions_tbl db !! sid); [|done].
  destruct (foreign_keys db); [|done].
  rewrite list_filter_filter. apply list_filter_iff.
  intros t. split; [tauto|]. intros ->. by split.
Qed.

(** X6: deleting a session through the store removes every session with
    that id from the history and keeps the others in their order, leaves
    the active slot as it is, and makes the id unknown to the database:
    [getSessionById] returns nothing for it and [getSessions] does not list
    it; every other session reads from the database as before. *)
Theorem deleteSession_effect sid st db :
  ∃ st' db',
    deleteSession sid st db = Normal (st', db') ∧
    sessions st' = filter (λ s, id s ≠ sid) (sessions st) ∧
    (sid ∉ id <$> sessions st') ∧
    activeSession st' = activeSession st ∧
    getSessionById sid db' = None ∧
    (sid ∉ id <$> getSessions db') ∧
    (∀ sid', sid' ≠ sid → getSessionById sid' db' = getSessionById sid' db).
Proof.
  eexists _, _. split; [done|]. simpl. split; [done|]. split.
  { intros (s & Hid & Hin)%list_elem_of_fmap.
    apply list_elem_of_filter in Hin as [Hne _]. by apply Hne. }
  split; [done|]. split.
  { unfold getSessionById. simpl. by rewrite lookup_delete_eq. }
  split.
  { rewrite ids_getSessions. simpl. rewrite lookup_delete_eq. by intros [? ?]. }
  intros sid' Hne. unfold getSessionById. simpl.
  rewrite lookup_delete_ne by done.
  destruct (sessions_tbl db !! sid') as [r|]; [|done].
  do 3 f_equal.
  destruct (sessions_tbl db !! sid); [|done].
  destruct (foreign_keys db); [|done].
  unfold delete_touch_points_of. rewrite list_filter_filter.
  apply list_filter_iff. intros t. split; [tauto|]. intros ->. by split.
Qed.

Lemma filter_iff_in {A} (P Q : A → Prop)
    `{∀ x, Decision (P x)} `{∀ x, Decision (Q x)} (l : list A) :
  (∀ x, x ∈ l → P x ↔ Q x) → filter P l = filter Q l.
Proof.
  induction l as [|x l IH]; intros HPQ; [done|].
  rewrite !filter_cons.
  rewrite IH by (intros y Hy; by apply HPQ, list_elem_of_further).
  pose proof (HPQ x (list_elem_of_here _ _)).
  destruct (decide (P x)), (decide (Q x)); tauto || done.
Qed.

(** X7: saving a session a second time changes nothing: under the
    conditions of the round trip (distinct touch-point ids, no other touch
    point stored under the session's id) the database after two calls of
    [saveSession] is the database after one, so no row is duplicated. *)
Theorem saveSession_idempotent s db :
  NoDup (tp_id <$> touchPoints s) →
  (∀ t, t ∈ touch_points_tbl db → t_session_id t = id s →
        t_id t ∈ tp_id <$> touchPoints s) →
  saveSession s (saveSession s db) = saveSession s db.
Proof.
  intros Hnd Hstale. rewrite !saveSession_unfold.
  set (r := {| r_type := type s; r_status := sess_status s;
               r_started_at := startedAt s; r_ended_at := endedAt s;
               r_notes := notes s; r_device_model := deviceModel s |}).
  set (db1 := insert_points (id s) (touchPoints s) (replace_session (id s) r db)).
  set (L := touch_points_tbl (replace_session (id s) r db)).
  assert (Htbl : sessions_tbl db1 = <[id s := r]> (sessions_tbl db)).
  { unfold db1. by rewrite insert_points_sessions. }
  assert (Hfk : foreign_keys db1 = foreign_keys db).
  { unfold db1. by rewrite insert_points_foreign_keys. }
  assert (Htp : touch_points_tbl db1 =
                filter (λ u, t_id u ∉ tp_id <$> touchPoints s) L
                ++ (touch_row (id s) <$> touchPoints s)).
  { unfold db1, L. by rewrite insert_points_touch_points. }
  assert (HL : ∀ t, t ∈ L → t_session_id t = id s →
                    t_id t ∈ tp_id <$> touchPoints s).
  { intros t Ht. apply Hstale.
    by apply (replace_session_touch_points_subseteq (id s) r db). }
  apply Db_eq.
  - rewrite insert_points_sessions.
    change (sessions_tbl (replace_session (id s) r db1))
      with (<[id s := r]> (sessions_tbl db1)).
    rewrite Htbl. apply insert_insert_eq.
  - rewrite insert_points_touch_points by done. rewrite Htp. f_equal.
    assert (Hrows : filter (λ u, t_id u ∉ tp_id <$> touchPoints s)
                           (touch_row (id s) <$> touchPoints s) = []).
    { apply filter_none, Forall_fmap, Forall_forall. intros tp Hin Hnot.
      apply Hnot. simpl. by apply list_elem_of_fmap_2. }
    change (touch_points_tbl (replace_session (id s) r db1))
      with (match sessions_tbl db1 !! id s with
            | Some _ =>
                if foreign_keys db1
                then delete_touch_points_of (id s) (touch_points_tbl db1)
                else touch_points_tbl db1
            | None => touch_points_tbl db1
            end).
    rewrite Htbl, lookup_insert_eq, Hfk.
    destruct (foreign_keys db) eqn:Efk.
    + unfold delete_touch_points_of. rewrite Htp.
      rewrite !filter_app.
      rewrite (filter_none (λ t, t_session_id t ≠ id s) (touch_row _ <$> _))
        by (apply Forall_fmap, Forall_forall; intros tp _ Hne; by apply Hne).
      rewrite app_nil_r, !list_filter_filter.
      apply filter_iff_in. intros t Ht. split; [tauto|].
      intros Hfresh. repeat split; try done.
      intros Hsid. by apply Hfresh, HL.
    + rewrite Htp, filter_app, Hrows, app_nil_r, list_filter_filter.
      apply list_filter_iff. intros t. tauto.
  - by rewrite !insert_points_foreign_keys.
Qed.

Lemma saveSession_idempotent_witness :
  saveSession session_ab (saveSession session_ab db_other)
    = saveSession session_ab db_other.
Proof.
  apply (saveSession_idempotent session_ab db_other).
  - apply NoDup_cons. split; [|apply NoDup_singleton].
    intros H%list_elem_of_singleton. discriminate H.
  - intros t Ht Hsid. apply list_elem_of_singleton in Ht. subst t.
    discriminate Hsid.
Defined.

(** X8: saving a session leaves every other session as it reads from the
    database, provided none of the saved touch points carries the id of a
    touch point stored under that other session (a row with the same id
    would be replaced and move to the saved session). *)
Theorem saveSession_other_sessions s db sid' :
  sid' ≠ id s →
  (∀ t, t ∈ touch_points_tbl db → t_session_id t = sid' →
        t_id t ∉ tp_id <$> touchPoints s) →
  getSessionById sid' (saveSession s db) = getSessionById sid' db.
Proof.
  intros Hne Hfree. rewrite saveSession_unfold. unfold getSessionById.
  rewrite insert_points_sessions.
  change (sessions_tbl (replace_session (id s) ?r db))
    with (<[id s := r]> (sessions_tbl db)).
  rewrite lookup_insert_ne by done.
  destruct (sessions_tbl db !! sid') as [r'|]; [|done].
  do 3 f_equal.
  rewrite touch_rows_other_session by done.
  match goal with
  | |- context [replace_session (id s) ?r db] =>
      rewrite <- (touch_rows_replace_session (id s) sid' r db) by done
  end.
  apply filter_iff_in. intros t Ht. split; [tauto|].
  intros Hsid. split; [done|]. apply Hfree; [|done].
  by eapply replace_session_touch_points_subseteq.
Qed.

Lemma saveSession_other_sessions_witness :
  getSessionById "1690000000000-older01" (saveSession session_ab db_other)
    = getSessionById "1690000000000-older01" db_other.
Proof.
  apply (saveSession_other_sessions session_ab db_other).
  - discriminate.
  - intros t Ht _. apply list_elem_of_singleton in Ht. subst t. simpl.
    intros Hin. apply elem_of_cons in Hin as [Hin|Hin]; [discriminate Hin|].
    apply list_elem_of_singleton in Hin. discriminate Hin.
Defined.

(** X9: [getSessions] lists every session of the database exactly once,
    most recent start first, each as a summary built from its row with no
    touch points. *)
Theorem getSessions_sorted_complete db :
  StronglySorted (λ s1 s2, startedAt s2 ≤ startedAt s1) (getSessions db) ∧
  NoDup (id <$> getSessions db) ∧
  (∀ sid, sid ∈ id <$> getSessions db ↔ is_Some (sessions_tbl db !! sid)) ∧
  (∀ s, s ∈ getSessions db →
     ∃ r, sessions_tbl db !! id s = Some r ∧ s = session_of_row (id s) r []).
Proof.
  split; [|split; [|split]].
  - unfold getSessions.
    apply (StronglySorted_fmap _ started_at_desc); [done|].
    apply StronglySorted_merge_sort.
    + intros x y z. unfold started_at_desc. lia.
    + intros x y. unfold started_at_desc. lia.
  - unfold getSessions. rewrite <- list_fmap_compose.
    rewrite merge_sort_Permutation.
    apply (NoDup_fst_map_to_list (sessions_tbl db)).
  - apply ids_getSessions.
  - intros s (kv & -> & Hin)%list_elem_of_fmap.
    rewrite merge_sort_Permutation in Hin. destruct kv as [k r].
    apply elem_of_map_to_list in Hin. by exists r.
Qed.

(** X10: when [endSession] has closed a session and [loadSessions] then
    reloads the history, the store lists that session as completed, with
    the notes and the end time, but without its touch points, grid cells
    and faulty areas; before the reload the head of the history still
    holds all of them.  The heat map of the reloaded session is empty. *)
Theorem endSession_then_loadSessions n env st db a engine W H :
  activeSession st = Some a →
  ∃ st1 db1 st2 fin s,
    endSession n env st db = Normal (st1, db1) ∧
    head (sessions st1) = Some fin ∧
    touchPoints fin = touchPoints a ∧ gridCells fin = gridCells a ∧
    faultyAreas fin = faultyAreas a ∧
    loadSessions st1 db1 = Normal (st2, db1) ∧
    activeSession st2 = None ∧
    s ∈ sessions st2 ∧ id s = id a ∧
    sess_status s = completed ∧ notes s = n ∧
    endedAt s = Some (Date_now env 0) ∧ startedAt s = startedAt a ∧
    touchPoints s = [] ∧ gridCells s = None ∧ faultyAreas s = Some [] ∧
    buildHeatCells engine (touchPoints s) W H = Some [].
Proof.
  intros Ha. unfold endSession. rewrite Ha.
  set (r := {| r_type := type a; r_status := completed;
               r_started_at := startedAt a;
               r_ended_at := Some (Date_now env 0);
               r_notes := n; r_device_model := deviceModel a |}).
  eexists _, _, _, _, (session_of_row (id a) r []).
  split; [reflexivity|]. simpl.
  split; [reflexivity|]. do 3 (split; [reflexivity|]).
  split; [reflexivity|]. simpl. split; [reflexivity|].
  split; [|by repeat split].
  unfold getSessions. rewrite saveSession_unfold, insert_points_sessions.
  apply list_elem_of_fmap. exists (id a, r). split; [reflexivity|].
  rewrite merge_sort_Permutation. apply elem_of_map_to_list.
  apply lookup_insert_eq.
Qed.

Lemma endSession_then_loadSessions_witness :
  ∃ st1 db1 st2 fin s,
    endSession (Some "done") env0 st_faulty db_other = Normal (st1, db1) ∧
    head (sessions st1) = Some fin ∧
    is_Some (gridCells fin) ∧
    loadSessions st1 db1 = Normal (st2, db1) ∧
    s ∈ sessions st2 ∧ sess_status s = completed ∧
    gridCells s = None ∧ touchPoints s = [].
Proof.
  destruct (endSession_then_loadSessions (Some "done") env0 st_faulty db_other
              _ engine0 40 40 eq_refl)
    as (st1 & db1 & st2 & fin & s & H1 & H2 & _ & H4 & _ & H6 & _ & H8 & _ &
        H10 & _ & _ & _ & H14 & H15 & _).
  exists st1, db1, st2, fin, s. rewrite H4. by repeat split; eauto.
Defined.

(** ** More on the heatmap aggregation *)

Lemma bind_all_bins {B} (g : Z → Z → list B) rows cols :
  (r ← seqZ 0 rows; c ← seqZ 0 cols; g r c) =
  all_bins rows cols ≫= (λ b, g b.1 b.2).
Proof.
  unfold all_bins.
  induction (seqZ 0 rows) as [|r R IH]; [done|].
  rewrite !bind_cons, bind_app, IH. f_equal.
  clear IH. induction (seqZ 0 cols) as [|c C IHC]; [done|].
  rewrite (bind_cons (λ c, g r c)), (bind_cons (λ c, [(r, c)])).
  rewrite bind_app, IHC. by rewrite bind_singleton.
Qed.

Lemma elem_of_all_bins rows cols r c :
  (r, c) ∈ all_bins rows cols ↔ 0 ≤ r < rows ∧ 0 ≤ c < cols.
Proof.
  unfold all_bins. rewrite list_elem_of_bind. split.
  - intros (r' & Hin & Hr%elem_of_seqZ).
    apply list_elem_of_bind in Hin as (c' & Hin & Hc%elem_of_seqZ).
    apply list_elem_of_singleton in Hin. injection Hin as -> ->. lia.
  - intros [Hr Hc]. exists r. split; [|apply elem_of_seqZ; lia].
    apply list_elem_of_bind. exists c. split; [|apply elem_of_seqZ; lia].
    by apply list_elem_of_singleton.
Qed.

Lemma NoDup_all_bins rows cols : NoDup (all_bins rows cols).
Proof.
  unfold all_bins. apply NoDup_bind; [| |apply NoDup_seqZ].
  - intros r1 r2 b _ _ (c1 & H1 & _)%list_elem_of_bind
      (c2 & H2 & _)%list_elem_of_bind.
    apply list_elem_of_singleton in H1, H2. subst b. by injection H2.
  - intros r _. apply NoDup_bind; [| |apply NoDup_seqZ].
    + intros c1 c2 b _ _ H1%list_elem_of_singleton H2%list_elem_of_singleton.
      subst b. by injection H2.
    + intros c _. apply NoDup_singleton.
Qed.

Lemma sumZ_cons x l : sumZ (x :: l) = x + sumZ l.
Proof. reflexivity. Qed.

Lemma sumZ_app l k : sumZ (l ++ k) = sumZ l + sumZ k.
Proof.
  induction l as [|x l IH]; [done|].
  change (sumZ ((x :: l) ++ k)) with (x + sumZ (l ++ k)).
  change (sumZ (x :: l)) with (x + sumZ l). lia.
Qed.

Lemma sumZ_fmap_add {A} (f g : A → Z) (l : list A) :
  sumZ ((λ x, f x + g x) <$> l) = sumZ (f <$> l) + sumZ (g <$> l).
Proof.
  induction l as [|x l IH]; [done|]. rewrite !fmap_cons.
  change (sumZ (?a :: ?k)) with (a + sumZ k). lia.
Qed.

Lemma sumZ_indicator {A} `{EqDecision A} (x0 : A) (l : list A) :
  NoDup l →
  sumZ ((λ x, if decide (x0 = x) then 1 else 0) <$> l) =
    if decide (x0 ∈ l) then 1 else 0.
Proof.
  induction 1 as [|x l Hx _ IH]; [done|]. rewrite fmap_cons.
  change (sumZ (?a :: ?k)) with (a + sumZ k). rewrite IH.
  destruct (decide (x0 = x)) as [->|Hne].
  - rewrite (decide_False (P := x ∈ l)) by done.
    by rewrite decide_True by apply list_elem_of_here.
  - destruct (decide (x0 ∈ l)).
    + by rewrite decide_True by by apply list_elem_of_further.
    + rewrite decide_False; [done|].
      intros [?|?]%elem_of_cons; done.
Qed.

Lemma sumZ_counts_bind {A} (f : A → Z) (mk : A → HeatCell) (l : list A) :
  (∀ x, count (mk x) = f x) → (∀ x, 0 ≤ f x) →
  sumZ (count <$> (l ≫= λ x, if decide (0 < f x) then [mk x] else [])) =
    sumZ (f <$> l).
Proof.
  intros Hmk Hf. induction l as [|x l IH]; [done|].
  rewrite bind_cons, fmap_app, sumZ_app, IH, fmap_cons, sumZ_cons.
  destruct (decide (0 < f x)).
  - rewrite fmap_cons, fmap_nil, sumZ_cons, Hmk.
    change (sumZ []) with 0. lia.
  - pose proof (Hf x). rewrite fmap_nil. change (sumZ []) with 0. lia.
Qed.

Lemma heat_count_nonneg points W H r c : 0 ≤ heat_count points W H r c.
Proof. unfold heat_count, bin_count. lia. Qed.

Lemma in_grid_all_bins W H pt :
  in_grid W H pt ↔
  bin_of W H (heat_rows H) (heat_cols W) pt
    ∈ all_bins (heat_rows H) (heat_cols W).
Proof.
  unfold in_grid. destruct (bin_of _ _ _ _ _) as [r c].
  by rewrite elem_of_all_bins.
Qed.

Lemma sumZ_heat_count points W H :
  sumZ ((λ b, heat_count points W H b.1 b.2)
          <$> all_bins (heat_rows H) (heat_cols W)) =
  Z.of_nat (length (filter (in_grid W H) points)).
Proof.
  induction points as [|pt pts IH].
  - rewrite filter_nil. simpl.
    induction (all_bins _ _) as [|b l IHl]; [done|]. rewrite fmap_cons.
    change (sumZ (?a :: ?k)) with (a + sumZ k). rewrite IHl.
    unfold heat_count, bin_count. by rewrite filter_nil.
  - rewrite (list_fmap_ext _
      (λ b, (if decide (bin_of W H (heat_rows H) (heat_cols W) pt = b)
             then 1 else 0) + heat_count pts W H b.1 b.2)).
    2:{ intros _ [r c] _. unfold heat_count. by rewrite bin_count_cons. }
    rewrite sumZ_fmap_add, IH, sumZ_indicator by apply NoDup_all_bins.
    rewrite filter_cons.
    destruct (decide (in_grid W H pt)) as [Hin|Hout].
    + rewrite decide_True by by apply in_grid_all_bins.
      simpl. lia.
    + rewrite decide_False by by rewrite <- in_grid_all_bins.
      lia.
Qed.

Lemma sumZ_counts_heat_cells_spec points W H :
  sumZ (count <$> heat_cells_spec points W H) =
    Z.of_nat (length (filter (in_grid W H) points)).
Proof.
  unfold heat_cells_spec. rewrite bind_all_bins.
  rewrite (sumZ_counts_bind (λ b, heat_count points W H b.1 b.2)).
  - apply sumZ_heat_count.
  - done.
  - intros b. apply heat_count_nonneg.
Qed.

(** X11: no point is lost or counted twice by the aggregation: for
    positive container dimensions the counts of the cells that
    [buildHeatCells] returns add up to the number of points whose bin lies
    in the grid. *)
Theorem buildHeatCells_counts_points engine points W H cells :
  (0 < W)%Q → (0 < H)%Q →
  buildHeatCells engine points W H = Some cells →
  sumZ (count <$> cells) = Z.of_nat (length (filter (in_grid W H) points)) ∧
  sumZ (count <$> cells) ≤ Z.of_nat (length points).
Proof.
  intros HW HH Hb. apply buildHeatCells_Some in Hb; [|done..].
  subst cells.
  rewrite sumZ_counts_heat_cells_spec.
  split; [done|]. pose proof (length_filter (in_grid W H) points). lia.
Qed.

Lemma buildHeatCells_counts_points_witness :
  ∃ cells, buildHeatCells engine0 five_points 40 40 = Some cells ∧
    sumZ (count <$> cells) = 3 ∧ length five_points = 5%nat.
Proof.
  eexists. split; [reflexivity|].
  split; [|reflexivity].
  exact (proj1 (buildHeatCells_counts_points engine0 five_points 40 40 _
                  eq_refl eq_refl eq_refl)).
Defined.

Lemma max_with_1_elem x l : x ∈ l → x ≤ max_with_1 l.
Proof.
  induction l as [|y l IH]; [by intros ?%elem_of_nil|].
  change (max_with_1 (y :: l)) with (Z.max y (max_with_1 l)).
  intros [->|Hin]%elem_of_cons; [lia|]. specialize (IH Hin). lia.
Qed.

Lemma max_with_1_attained l : max_with_1 l = 1 ∨ max_with_1 l ∈ l.
Proof.
  induction l as [|y l IH]; [by left|].
  change (max_with_1 (y :: l)) with (Z.max y (max_with_1 l)).
  destruct (Z.max_spec y (max_with_1 l)) as [[_ ->]|[_ ->]].
  - destruct IH as [?|?]; [by left | right; by apply list_elem_of_further].
  - right. apply list_elem_of_here.
Qed.

Lemma heat_count_le_max points W H r c :
  0 ≤ r < heat_rows H → 0 ≤ c < heat_cols W →
  heat_count points W H r c ≤ heat_maxCount points W H.
Proof.
  intros Hr Hc. apply max_with_1_elem.
  apply list_elem_of_bind. exists r. split; [|apply elem_of_seqZ; lia].
  apply list_elem_of_bind. exists c. split; [|apply elem_of_seqZ; lia].
  by apply list_elem_of_singleton.
Qed.

Lemma inject_Z_pos n : 0 < n → (0 < inject_Z n)%Q.
Proof. intros Hn. change 0%Q with (inject_Z 0). by rewrite <- Zlt_Qlt. Qed.

Lemma intensity_bounds n m :
  0 < n → n ≤ m →
  (0 < inject_Z n / inject_Z m)%Q ∧ (inject_Z n / inject_Z m <= 1)%Q.
Proof.
  intros Hn Hm.
  assert (0 < inject_Z m)%Q by (apply inject_Z_pos; lia).
  split.
  - apply Qlt_shift_div_l; [done|]. rewrite Qmult_0_l.
    by apply inject_Z_pos.
  - apply Qle_shift_div_r; [done|]. rewrite Qmult_1_l.
    by rewrite <- Zle_Qle.
Qed.

(** X12: for positive container dimensions every cell that
    [buildHeatCells] returns has a normalizedIntensity above 0 and at most
    1 and a count at most the largest count; and when the list is not
    empty, one of its cells has normalizedIntensity equal to 1. *)
Theorem buildHeatCells_intensity engine points W H cells :
  (0 < W)%Q → (0 < H)%Q →
  buildHeatCells engine points W H = Some cells →
  Forall (λ hc, (0 < normalizedIntensity hc)%Q ∧
                (normalizedIntensity hc <= 1)%Q ∧
                count hc ≤ heat_maxCount points W H) cells ∧
  (cells ≠ [] → Exists (λ hc, (normalizedIntensity hc == 1)%Q) cells).
Proof.
  intros HW HH Hb. apply buildHeatCells_Some in Hb; [|done..].
  subst cells. split.
  - apply Forall_forall.
    intros hc (r & c & Hr & Hc & Hpos & ->)%elem_of_heat_cells_spec.
    pose proof (heat_count_le_max points W H r c Hr Hc) as Hle.
    destruct (intensity_bounds _ _ Hpos Hle). by repeat split.
  - intros Hne. apply Exists_exists.
    assert (∃ r c, 0 ≤ r < heat_rows H ∧ 0 ≤ c < heat_cols W ∧
                   heat_count points W H r c = heat_maxCount points W H)
      as (r & c & Hr & Hc & Hmax).
    { destruct (max_with_1_attained
        (r ← seqZ 0 (heat_rows H); c ← seqZ 0 (heat_cols W);
         [heat_count points W H r c])) as [H1|Hin].
      - destruct (heat_cells_spec points W H) as [|hc l] eqn:E; [done|].
        assert (hc ∈ heat_cells_spec points W H) as Hhc
          by (rewrite E; apply list_elem_of_here).
        apply elem_of_heat_cells_spec in Hhc as (r & c & Hr & Hc & Hpos & _).
        pose proof (heat_count_le_max points W H r c Hr Hc) as Hle.
        exists r, c. repeat split; try lia.
        unfold heat_maxCount in *. lia.
      - apply list_elem_of_bind in Hin as (r & Hin & Hr%elem_of_seqZ).
        apply list_elem_of_bind in Hin as (c & Hin & Hc%elem_of_seqZ).
        apply list_elem_of_singleton in Hin.
        exists r, c. repeat split; try lia. by rewrite <- Hin. }
    pose proof (max_with_1_ge
      (r ← seqZ 0 (heat_rows H); c ← seqZ 0 (heat_cols W);
       [heat_count points W H r c])) as Hge.
    fold (heat_maxCount points W H) in Hge.
    exists (heat_cell (heat_maxCount points W H) r c
                      (heat_count points W H r c)).
    split.
    + apply elem_of_heat_cells_spec. exists r, c. repeat split; lia.
    + simpl. rewrite Hmax. apply Qmult_inv_r.
      intros Hz. assert (0 < inject_Z (heat_maxCount points W H))%Q as Hp
        by (apply inject_Z_pos; lia).
      rewrite Hz in Hp. by apply Qlt_irrefl in Hp.
Qed.

Lemma buildHeatCells_intensity_witness :
  ∃ cells, buildHeatCells engine0 five_points 40 40 = Some cells ∧
    Forall (λ hc, (0 < normalizedIntensity hc)%Q ∧
                  (normalizedIntensity hc <= 1)%Q ∧
                  count hc ≤ heat_maxCount five_points 40 40) cells ∧
    Exists (λ hc, (normalizedIntensity hc == 1)%Q) cells.
Proof.
  eexists. split; [reflexivity|].
  destruct (buildHeatCells_intensity engine0 five_points 40 40 _
              eq_refl eq_refl eq_refl) as [Hall Hex].
  split; [exact Hall|]. apply Hex. discriminate.
Defined.

Lemma Qfloor_range q n :
  (0 <= q)%Q → (q < inject_Z n)%Q → 0 ≤ Qfloor q < n.
Proof.
  intros H0 Hn. split.
  - change 0 with (Qfloor 0). by apply Qfloor_resp_le.
  - rewrite Zlt_Qlt. eapply Qle_lt_trans; [apply Qfloor_le | done].
Qed.

Lemma scaled_range x w n :
  (0 < w)%Q → 1 ≤ n → (0 <= x)%Q → (x < w)%Q →
  (0 <= x / w * inject_Z n)%Q ∧ (x / w * inject_Z n < inject_Z n)%Q.
Proof.
  intros Hw Hn Hx0 Hxw.
  assert (0 < inject_Z n)%Q by (apply inject_Z_pos; lia).
  assert (0 <= x / w)%Q.
  { apply Qle_shift_div_l; [done|]. by rewrite Qmult_0_l. }
  assert (x / w < 1)%Q.
  { apply Qlt_shift_div_r; [done|]. by rewrite Qmult_1_l. }
  split.
  - apply Qmult_le_0_compat; [done|]. by apply Qlt_le_weak.
  - rewrite <- (Qmult_1_l (inject_Z n)) at 2.
    by apply Qmult_lt_compat_r.
Qed.

(** X13: a point inside the container (0 <= x < W and 0 <= y < H) always
    falls in a bin of the grid, so it is never discarded; when every point
    is inside the container the counts of the cells add up to the number
    of points. *)
Theorem points_inside_container_counted engine points W H cells :
  (0 < W)%Q → (0 < H)%Q →
  Forall (λ pt, (0 <= tp_x pt)%Q ∧ (tp_x pt < W)%Q ∧
                (0 <= tp_y pt)%Q ∧ (tp_y pt < H)%Q) points →
  buildHeatCells engine points W H = Some cells →
  Forall (in_grid W H) points ∧
  sumZ (count <$> cells) = Z.of_nat (length points).
Proof.
  intros HW HH Hin Hb.
  assert (Forall (in_grid W H) points) as Hgrid.
  { eapply Forall_impl; [exact Hin|]. intros pt (Hx0 & Hx & Hy0 & Hy).
    unfold in_grid, bin_of.
    pose proof (Qceiling_div_pos W HW) as Hc.
    pose proof (Qceiling_div_pos H HH) as Hr.
    fold (heat_cols W) in Hc. fold (heat_rows H) in Hr.
    destruct (scaled_range (tp_x pt) W (heat_cols W)) as [? ?]; try done.
    destruct (scaled_range (tp_y pt) H (heat_rows H)) as [? ?]; try done.
    split; by apply Qfloor_range. }
  split; [done|].
  apply buildHeatCells_Some in Hb; [|done..]. subst cells.
  by rewrite sumZ_counts_heat_cells_spec, filter_all.
Qed.

Lemma points_inside_container_counted_witness :
  ∃ cells, buildHeatCells engine0 three_inside 40 40 = Some cells ∧
    Forall (in_grid 40 40) three_inside ∧
    sumZ (count <$> cells) = 3.
Proof.
  eexists. split; [reflexivity|].
  apply (points_inside_container_counted engine0 three_inside 40 40);
    [reflexivity | reflexivity | | reflexivity].
  repeat constructor; (reflexivity || (intros Hc; discriminate Hc)).
Defined.

Lemma bin_count_xy W H rows cols points r c :
  bin_count W H rows cols points r c =
  Z.of_nat (length (filter (λ q, bin_xy W H rows cols q = (r, c))
                           (xy <$> points))).
Proof.
  unfold bin_count. f_equal.
  induction points as [|pt pts IH]; [done|].
  rewrite fmap_cons, !filter_cons.
  change (bin_xy W H rows cols (xy pt)) with (bin_of W H rows cols pt).
  destruct (decide (bin_of W H rows cols pt = (r, c))); simpl; by rewrite IH.
Qed.

Lemma heat_count_xy points points' W H r c :
  xy <$> points ≡ₚ xy <$> points' →
  heat_count points W H r c = heat_count points' W H r c.
Proof.
  intros Hperm. unfold heat_count. by rewrite !bin_count_xy, Hperm.
Qed.

(** X14: the result of [buildHeatCells] depends only on the coordinates of
    the points and not on their order: two lists whose coordinate pairs are
    the same up to order give the same cells (ids, timestamps, pressures
    and ghost flags play no part). *)
Theorem buildHeatCells_coordinates_only engine points points' W H :
  (0 < W)%Q → (0 < H)%Q →
  xy <$> points ≡ₚ xy <$> points' →
  buildHeatCells engine points W H = buildHeatCells engine points' W H.
Proof.
  intros HW HH Hperm. rewrite !buildHeatCells_outcome by done.
  assert (points = [] ↔ points' = []) as Hnil.
  { apply Permutation_length in Hperm. rewrite !length_fmap in Hperm.
    split; intros ->; apply nil_length_inv; simpl in Hperm; lia. }
  destruct (decide (points = [] ∨ grid_fits engine W H)) as [Hok|Hbad];
    [rewrite decide_True by tauto | by rewrite decide_False by tauto].
  f_equal.
  assert (heat_maxCount points W H = heat_maxCount points' W H) as Hmax.
  { unfold heat_maxCount. f_equal.
    apply Forall_bind_ext, Forall_forall. intros r _.
    apply Forall_bind_ext, Forall_forall. intros c _.
    by rewrite (heat_count_xy points points'). }
  unfold heat_cells_spec. rewrite Hmax.
  apply Forall_bind_ext, Forall_forall. intros r _.
  apply Forall_bind_ext, Forall_forall. intros c _.
  by rewrite (heat_count_xy points points').
Qed.

Lemma buildHeatCells_coordinates_only_witness :
  buildHeatCells engine0 [pt_at "a" 10 10; pt_at "b" 35 5] 40 40 =
  buildHeatCells engine0 [pt_at "z" 35 5; pt_at "y" 10 10] 40 40.
Proof.
  apply buildHeatCells_coordinates_only; [reflexivity | reflexivity |].
  apply perm_swap.
Defined.

Lemma scale_back c n w :
  0 ≤ c < n → (inject_Z (n - 1) < w / inject_Z cellSize)%Q →
  (inject_Z (c * cellSize) < w)%Q.
Proof.
  intros Hc Hn.
  assert (inject_Z c <= inject_Z (n - 1))%Q by (rewrite <- Zle_Qle; lia).
  assert (inject_Z c < w / inject_Z cellSize)%Q as Hlt
    by (eapply Qle_lt_trans; eauto).
  rewrite inject_Z_mult.
  apply (Qmult_lt_compat_r _ _ (inject_Z cellSize)) in Hlt; [|reflexivity].
  rewrite (Qmult_comm (w / _)), Qmult_div_r in Hlt; [done|].
  intros Hz. discriminate Hz.
Qed.

(** X15: for positive container dimensions every cell that
    [buildHeatCells] returns starts inside the container: its x and y are
    multiples of the cell size, not negative, and below the width and the
    height. *)
Theorem buildHeatCells_cells_inside engine points W H cells :
  (0 < W)%Q → (0 < H)%Q →
  buildHeatCells engine points W H = Some cells →
  Forall (λ hc, 0 ≤ hc_x hc ∧ (inject_Z (hc_x hc) < W)%Q ∧
                0 ≤ hc_y hc ∧ (inject_Z (hc_y hc) < H)%Q ∧
                hc_x hc `mod` cellSize = 0 ∧ hc_y hc `mod` cellSize = 0)
         cells.
Proof.
  intros HW HH Hb. apply buildHeatCells_Some in Hb; [|done..].
  subst cells. apply Forall_forall.
  intros hc (r & c & Hr & Hc & _ & ->)%elem_of_heat_cells_spec. simpl.
  pose proof (Qceiling_lt (W / inject_Z cellSize)) as HcW.
  pose proof (Qceiling_lt (H / inject_Z cellSize)) as HcH.
  fold (heat_cols W) in HcW. fold (heat_rows H) in HcH.
  repeat split.
  - unfold cellSize. lia.
  - by eapply scale_back.
  - unfold cellSize. lia.
  - by eapply scale_back.
  - apply Z_mod_mult.
  - apply Z_mod_mult.
Qed.

Lemma buildHeatCells_cells_inside_witness :
  ∃ cells, buildHeatCells engine0 five_points 40 40 = Some cells ∧
    Forall (λ hc, 0 ≤ hc_x hc ∧ (inject_Z (hc_x hc) < 40)%Q ∧
                  0 ≤ hc_y hc ∧ (inject_Z (hc_y hc) < 40)%Q ∧
                  hc_x hc `mod` cellSize = 0 ∧ hc_y hc `mod` cellSize = 0)
           cells.
Proof.
  eexists. split; [reflexivity|].
  exact (buildHeatCells_cells_inside engine0 five_points 40 40 _
           eq_refl eq_refl eq_refl).
Defined.

Lemma Math_round_mono q q' : (q <= q')%Q → Math_round q ≤ Math_round q'.
Proof. intros Hq. apply Qfloor_resp_le. lra. Qed.

Lemma Math_round_channel q :
  (0 <= q)%Q → (q <= 255)%Q → 0 ≤ Math_round q ≤ 255.
Proof.
  intros H0 H255. split.
  - change 0 with (Qfloor 0). apply Qfloor_resp_le. lra.
  - change 255 with (Qfloor (255 + (1 # 2))). apply Qfloor_resp_le. lra.
Qed.

Lemma heat_channels_eq i :
  heat_channels i =
    (Math_round (Qmin 255 (i * 510)),
     Math_round (Qmax 0 (255 - Qabs (i * 510 - 255))),
     Math_round (Qmax 0 (255 - i * 510))).
Proof. reflexivity. Qed.

(** X16: for intensities between 0 and 1 the three channels of
    [heatColor] are integers between 0 and 255; the red channel does not
    decrease and the blue channel does not increase when the intensity
    grows; intensity 0 gives blue, one half gives yellow and 1 gives
    red. *)
Theorem heatColor_channels i j r g b r' g' b' :
  (0 <= i)%Q → (i <= j)%Q → (j <= 1)%Q →
  heat_channels i = (r, g, b) → heat_channels j = (r', g', b') →
  0 ≤ r ≤ 255 ∧ 0 ≤ g ≤ 255 ∧ 0 ≤ b ≤ 255 ∧
  r ≤ r' ∧ b' ≤ b ∧
  heatColor i = "rgb(" +:+ pretty r +:+ "," +:+ pretty g +:+ ","
                +:+ pretty b +:+ ")" ∧
  heatColor 0 = "rgb(0,0,255)" ∧
  heatColor (1 # 2) = "rgb(255,255,0)" ∧
  heatColor 1 = "rgb(255,0,0)".
Proof.
  intros H0 Hij H1 Hi Hj.
  assert (heatColor i = "rgb(" +:+ pretty r +:+ "," +:+ pretty g +:+ ","
                        +:+ pretty b +:+ ")") as Hstr
    by (unfold heatColor; by rewrite Hi).
  rewrite heat_channels_eq in Hi, Hj.
  apply pair_equal_spec in Hi as [Hi <-]. apply pair_equal_spec in Hi as [<- <-].
  apply pair_equal_spec in Hj as [Hj <-]. apply pair_equal_spec in Hj as [<- <-].
  pose proof (Qabs_nonneg (i * 510 - 255)).
  split_and!; try done.
  - apply Math_round_channel; [apply Q.min_glb; lra | apply Q.le_min_l].
  - apply Math_round_channel; [apply Q.min_glb; lra | apply Q.le_min_l].
  - apply Math_round_channel; [apply Q.le_max_l | apply Q.max_lub; lra].
  - apply Math_round_channel; [apply Q.le_max_l | apply Q.max_lub; lra].
  - apply Math_round_channel; [apply Q.le_max_l | apply Q.max_lub; lra].
  - apply Math_round_channel; [apply Q.le_max_l | apply Q.max_lub; lra].
  - apply Math_round_mono, Q.min_le_compat_l. lra.
  - apply Math_round_mono, Q.max_le_compat_l. lra.
Qed.

Lemma heatColor_channels_witness :
  0 ≤ 128 ≤ 255 ∧ 0 ≤ 128 ≤ 255 ∧ 0 ≤ 128 ≤ 255 ∧
  128 ≤ 255 ∧ 0 ≤ 128 ∧
  heatColor (1 # 4) = "rgb(" +:+ pretty 128 +:+ "," +:+ pretty 128 +:+ ","
                      +:+ pretty 128 +:+ ")" ∧
  heatColor 0 = "rgb(0,0,255)" ∧
  heatColor (1 # 2) = "rgb(255,255,0)" ∧
  heatColor 1 = "rgb(255,0,0)".
Proof.
  apply (heatColor_channels (1 # 4) 1 128 128 128 255 0 0);
    first [ reflexivity | unfold Qle; simpl; lia ].
Defined.

Lemma getSessions_no_points db s : s ∈ getSessions db → touchPoints s = [].
Proof.
  unfold getSessions. by intros (kv & -> & _)%list_elem_of_fmap.
Qed.

Lemma screen_points_loaded st db st' db' sessionId :
  loadSessions st db = Normal (st', db') →
  screen_points sessionId st' = [].
Proof.
  intros [= <- <-]. unfold screen_points, screen_session. simpl.
  destruct (List.find _ _) as [s|] eqn:E; [|done].
  apply List.find_some in E as [Hin _].
  apply list_elem_of_In in Hin. by eapply getSessions_no_points.
Qed.

(** X17: the heat map of a closed session shows its touch points only
    until the history is reloaded: right after [endSession] the screen
    finds the session in the store with all its touch points; after
    [loadSessions] the screen finds no touch point for any session id, and
    its list of heat cells is empty. *)
Theorem heatmap_after_reload n env st db a :
  activeSession st = Some a →
  ∃ st1 db1 st2,
    endSession n env st db = Normal (st1, db1) ∧
    screen_points (id a) st1 = touchPoints a ∧
    loadSessions st1 db1 = Normal (st2, db1) ∧
    ∀ engine sessionId W,
      screen_points sessionId st2 = [] ∧
      screen_heatCells engine sessionId W st2 = Some [].
Proof.
  intros Ha. unfold endSession. rewrite Ha.
  eexists _, _, _. split; [reflexivity|]. split.
  { unfold screen_points, screen_session. simpl.
    by rewrite bool_decide_eq_true_2. }
  split; [reflexivity|].
  intros engine sessionId W.
  match goal with
  | |- screen_points _ ?st2 = [] ∧ _ =>
      assert (screen_points sessionId st2 = []) as Hpts
        by (by eapply screen_points_loaded)
  end.
  split; [exact Hpts|]. unfold screen_heatCells. by rewrite Hpts.
Qed.

Lemma heatmap_after_reload_witness :
  ∃ st1 db1 st2,
    endSession None env0 st_monitor db_other = Normal (st1, db1) ∧
    loadSessions st1 db1 = Normal (st2, db1) ∧
    screen_heatCells engine0 "1690000000000-older01" 390 st2 = Some [].
Proof.
  destruct (heatmap_after_reload None env0 st_monitor db_other _ eq_refl)
    as (st1 & db1 & st2 & H1 & _ & H3 & H4).
  exists st1, db1, st2. split; [exact H1|]. split; [exact H3|]. apply H4.
Defined.

(** ** The ghost monitor screen *)

Lemma touchStarts_monitoring events ui st a :
  phase ui = monitoring → activeSession st = Some a →
  ∃ ui' st' a',
    touchStarts events ui st = Normal (ui', st') ∧
    phase ui' = monitoring ∧ timeLeft ui' = timeLeft ui ∧
    activeSession st' = Some a' ∧ same_except_points a a' ∧
    sessions st' = sessions st ∧
    ghostDots ui' =
      ghostDots ui ++
      ((λ ev, {| dot_id := pretty (Date_now ev.2 0) +:+ "-"
                           +:+ String.substring 0 5 (random_suffix ev.2 0);
                 dot_x := ev.1.1; dot_y := ev.1.2;
                 dot_ts := Date_now ev.2 0 |}) <$> events) ∧
    touchPoints a' =
      touchPoints a ++
      ((λ ev, {| tp_id := generateId (Date_now ev.2 1) (random_suffix ev.2 1);
                 tp_x := ev.1.1; tp_y := ev.1.2;
                 tp_timestamp := Date_now ev.2 0;
                 tp_pressure := None; tp_isGhost := Some true |}) <$> events).
Proof.
  revert ui st a. induction events as [|[[px py] env] rest IH];
    intros ui st a Hph Ha.
  - exists ui, st, a. simpl. rewrite !app_nil_r. by repeat split.
  - simpl. unfold handleTouchStart. rewrite decide_True by done.
    unfold recordTouch. rewrite Ha. simpl.
    match goal with
    | |- context [touchStarts rest ?u ?s] =>
        destruct (IH u s _ Hph eq_refl)
          as (ui' & st' & a' & Hrun & Hph' & Htl & Ha' & Hsame & Hs & Hdots & Hpts)
    end.
    exists ui', st', a'. simpl in *.
    split; [done|]. split; [done|]. split; [done|]. split; [done|].
    split; [unfold same_except_points in *; simpl in *; tauto|].
    split; [done|].
    split; [by rewrite Hdots, <- app_assoc | by rewrite Hpts, <- app_assoc].
Qed.

Lemma all_ghost_counts s :
  Forall (λ p, tp_isGhost p = Some true) (touchPoints s) →
  detail_ghostCount s = detail_touchCount s.
Proof.
  unfold detail_ghostCount, detail_touchCount.
  induction 1 as [|p l Hp _ IH]; [done|]. simpl. rewrite Hp. simpl.
  by rewrite IH.
Qed.

(** X18: from [startMonitoring] on, every touch that [handleTouchStart]
    receives adds one dot to the screen and one touch point to the active
    session, with the same position and the same timestamp, and the touch
    point is flagged as ghost; so after any number of touches the screen's
    dots and the session's touch points agree one by one, and the ghost
    count of the session equals its touch count. *)
Theorem monitor_dots_match_touch_points events env st :
  ∃ ui1 st1 ui2 st2 a,
    startMonitoring env st = Normal (ui1, st1) ∧
    touchStarts events ui1 st1 = Normal (ui2, st2) ∧
    phase ui2 = monitoring ∧
    activeSession st2 = Some a ∧ type a = ghost_monitor ∧
    length (ghostDots ui2) = length events ∧
    length (touchPoints a) = length events ∧
    (λ d, (dot_x d, dot_y d, dot_ts d)) <$> ghostDots ui2 =
      (λ p, (tp_x p, tp_y p, tp_timestamp p)) <$> touchPoints a ∧
    Forall (λ p, tp_isGhost p = Some true) (touchPoints a) ∧
    detail_ghostCount a = detail_touchCount a.
Proof.
  unfold startMonitoring, startSession. simpl.
  match goal with
  | |- context [Normal (?u, ?s) = Normal _] =>
      destruct (touchStarts_monitoring events u s _ eq_refl eq_refl)
        as (ui2 & st2 & a & Hrun & Hph & _ & Ha & Hsame & _ & Hdots & Hpts)
  end.
  eexists _, _, ui2, st2, a. split; [reflexivity|]. split; [exact Hrun|].
  split; [done|]. split; [done|].
  split; [by destruct Hsame as (_ & -> & _)|].
  simpl in Hdots, Hpts.
  split; [by rewrite Hdots, length_fmap|].
  split; [by rewrite Hpts, length_fmap|].
  split; [by rewrite Hdots, Hpts, <- !list_fmap_compose|].
  assert (Forall (λ p, tp_isGhost p = Some true) (touchPoints a)) as Hghost
    by (rewrite Hpts; apply Forall_fmap, Forall_forall; by intros ev _).
  split; [done|].
  by apply all_ghost_counts.
Qed.

(** ** The session detail screen *)

Lemma ghost_count_as_stored pts :
  length (List.filter (λ p, truthy (tp_isGhost p)) (as_stored <$> pts)) =
  length (List.filter (λ p, truthy (tp_isGhost p)) pts).
Proof.
  induction pts as [|p pts IH]; [done|]. rewrite fmap_cons. simpl.
  destruct (tp_isGhost p) as [[|]|]; simpl; by rewrite IH.
Qed.

Lemma ghost_count_le pts :
  (length (List.filter (λ p, truthy (tp_isGhost p)) pts) ≤ length pts)%nat.
Proof.
  induction pts as [|p pts IH]; [done|]. simpl.
  destruct (truthy (tp_isGhost p)); simpl; lia.
Qed.

(** X19: the figures of the session detail screen survive the database:
    under the conditions of the round trip, the session read back by
    [getSessionById] has the same number of touches, the same number of
    ghost touches and the same duration as the session that was saved, and
    the ghost count never exceeds the touch count. *)
Theorem detail_figures_round_trip s db :
  NoDup (tp_id <$> touchPoints s) →
  (∀ t, t ∈ touch_points_tbl db → t_session_id t = id s →
        t_id t ∈ tp_id <$> touchPoints s) →
  ∃ s', getSessionById (id s) (saveSession s db) = Some s' ∧
    detail_touchCount s' = detail_touchCount s ∧
    detail_ghostCount s' = detail_ghostCount s ∧
    duration s' = duration s ∧
    (detail_ghostCount s' ≤ detail_touchCount s')%nat.
Proof.
  intros Hnd Hstale. eexists. split; [by apply getSessionById_saveSession|].
  unfold detail_touchCount, detail_ghostCount, duration. simpl.
  rewrite length_fmap, ghost_count_as_stored.
  split; [done|]. split; [done|]. split; [done|]. apply ghost_count_le.
Qed.

Lemma detail_figures_round_trip_witness :
  ∃ s', getSessionById (id session_ab) (saveSession session_ab db_other)
          = Some s' ∧
    detail_touchCount s' = 2%nat ∧ detail_ghostCount s' = 1%nat ∧
    duration s' = Some 30.
Proof.
  destruct (detail_figures_round_trip session_ab db_other)
    as (s' & Hget & Ht & Hg & Hd & _).
  - apply NoDup_cons. split; [|apply NoDup_singleton].
    intros H%list_elem_of_singleton. discriminate H.
  - intros t Ht Hsid. apply list_elem_of_singleton in Ht. subst t.
    discriminate Hsid.
  - exists s'. split; [exact Hget|]. rewrite Ht, Hg, Hd. by repeat split.
Defined.

Lemma Math_round_div_1000 z :
  Math_round (inject_Z z / 1000) = (z + 500) `div` 1000.
Proof.
  unfold Math_round. rewrite Zdiv_Qdiv. apply Qfloor_comp.
  rewrite inject_Z_plus. field.
Qed.

(** X20: the duration that the detail and history screens show is the
    time between start and end in seconds, rounded to the nearest second
    (a half going up); it is shown only when the session has an end time
    and neither time is 0, and it is not negative when the end is not
    before the start. *)
Theorem duration_rounds_to_seconds s e :
  endedAt s = Some e → e ≠ 0 → startedAt s ≠ 0 →
  ∃ d, duration s = Some d ∧
    1000 * d - 500 ≤ e - startedAt s < 1000 * d + 500 ∧
    (startedAt s ≤ e → 0 ≤ d).
Proof.
  intros He He0 Hs0. unfold duration. rewrite He.
  rewrite !bool_decide_eq_true_2 by done. simpl.
  eexists. split; [reflexivity|]. rewrite Math_round_div_1000.
  split; [|intros ?; apply Z.div_pos; lia].
  pose proof (Z.div_mod (e - startedAt s + 500) 1000 ltac:(lia)).
  pose proof (Z.mod_pos_bound (e - startedAt s + 500) 1000 ltac:(lia)).
  lia.
Qed.

Lemma duration_rounds_to_seconds_witness :
  ∃ d, duration session_ab = Some d ∧
    1000 * d - 500 ≤ 1700000030000 - 1700000000000 < 1000 * d + 500 ∧
    0 ≤ d.
Proof.
  destruct (duration_rounds_to_seconds session_ab 1700000030000
              eq_refl ltac:(discriminate) ltac:(discriminate))
    as (d & Hd & Hr & Hpos).
  exists d. split; [exact Hd|]. split; [exact Hr|]. apply Hpos. simpl. lia.
Defined.

(** ** Finishing the grid test *)

Lemma addFaultyAreas_appends cells k env st a fa0 :
  activeSession st = Some a → faultyAreas a = Some fa0 →
  ∃ st' a',
    addFaultyAreas cells k env st = Normal st' ∧
    activeSession st' = Some a' ∧
    faultyAreas a' = Some (fa0 ++ imap (λ i, stored_area env (k + i)) cells) ∧
    same_except_areas a a' ∧
    sessions st' = sessions st ∧ isLoading st' = isLoading st.
Proof.
  revert k st a fa0. induction cells as [|cell rest IH]; intros k st a fa0 Ha Hfa.
  - exists st, a. simpl. rewrite app_nil_r. by repeat split.
  - simpl. unfold addFaultyArea. rewrite Ha, Hfa. simpl.
    match goal with
    | |- context [addFaultyAreas rest (S k) env ?s] =>
        destruct (IH (S k) s _ _ eq_refl eq_refl)
          as (st' & a' & Hrun & Ha' & Hfa' & Hsame & Hs & Hl)
    end.
    exists st', a'. split; [done|]. split; [done|].
    split.
    { rewrite Hfa', <- app_assoc. do 2 f_equal. simpl.
      unfold stored_area at 2. simpl. rewrite Nat.add_0_r. f_equal.
      apply imap_ext. intros i x _. simpl. by rewrite Nat.add_succ_r. }
    split; [unfold same_except_areas in *; simpl in *; tauto | done].
Qed.

(** X21: [handleFinish] of the grid test, called once while the test is
    not finished, stores one faulty area for each cell that is faulty or
    ghost, in the order of the grid and after the areas the session already
    had, then closes the session: the closed session keeps the grid and the
    touch points, carries the note with the numbers of tested and faulty
    cells, is saved and put at the head of the history, and the active slot
    is emptied.  A second call does nothing. *)
Theorem handleFinish_effect ui env st db a cells fa0 :
  finished ui = false →
  activeSession st = Some a → gridCells a = Some cells →
  faultyAreas a = Some fa0 →
  let faultyCells := List.filter is_faulty_cell cells in
  let ui' := {| started := started ui; finished := true |} in
  ∃ st' fin,
    handleFinish ui env st db = Normal (ui', st', saveSession fin db) ∧
    activeSession st' = None ∧ sessions st' = fin :: sessions st ∧
    sess_status fin = completed ∧ id fin = id a ∧
    gridCells fin = Some cells ∧ touchPoints fin = touchPoints a ∧
    faultyAreas fin = Some (fa0 ++ imap (stored_area env) faultyCells) ∧
    endedAt fin = Some (Date_now env (length faultyCells)) ∧
    notes fin =
      Some ("Grid test: "
            +:+ pretty (GRID_ROWS * GRID_COLS
                        - Z.of_nat (length (List.filter
                            (λ c, bool_decide (status c = untested)) cells)))
            +:+ " cells tested, "
            +:+ pretty (Z.of_nat (length faultyCells)) +:+ " faulty.") ∧
    (∀ env', handleFinish ui' env' st' (saveSession fin db)
             = Normal (ui', st', saveSession fin db)).
Proof.
  intros Hfin Ha Hg Hfa faultyCells ui'.
  unfold handleFinish. rewrite Hfin.
  assert (screen_gridCells st = cells) as ->
    by (unfold screen_gridCells; by rewrite Ha, Hg).
  fold faultyCells.
  destruct (addFaultyAreas_appends faultyCells 0 env st a fa0 Ha Hfa)
    as (st1 & a1 & Hrun & Ha1 & Hfa1 & Hsame & Hs & Hl).
  rewrite Hrun. simpl. unfold endSession. rewrite Ha1. simpl.
  destruct Hsame as (Hid & Hty & Hst & Hsa & Hen & Htp & Hgc & Hno & Hdm).
  eexists _, _. split; [reflexivity|]. simpl.
  rewrite Hs, Hid, Hgc, Hg, Htp, Hfa1, Nat.add_0_r.
  by repeat split.
Qed.

Lemma handleFinish_effect_witness :
  ∃ st' fin,
    handleFinish running env0 st_faulty db_empty
      = Normal ({| started := true; finished := true |}, st',
                saveSession fin db_empty) ∧
    activeSession st' = None ∧
    sess_status fin = completed ∧
    faultyAreas fin =
      Some [stored_area env0 0
              {| row := 4; col := 2; status := faulty; touchCount := 2;
                 lastTouched := Some 1700000000000 |}] ∧
    notes fin = Some "Grid test: 1 cells tested, 1 faulty.".
Proof.
  destruct (handleFinish_effect running env0 st_faulty db_empty _ _ []
              eq_refl eq_refl eq_refl eq_refl)
    as (st' & fin & Hrun & Hact & _ & Hst & _ & _ & _ & Hfa & _ & Hnotes & _).
  exists st', fin. by repeat split.
Defined.

Lemma zoneForCell_range r c totalRows totalCols :
  zoneForCell r c totalRows totalCols ∈ grid_zones.
Proof.
  unfold zoneForCell, grid_zones. apply list_elem_of_In.
  destruct (r <? 2); [simpl; tauto|].
  destruct (r >=? totalRows - 2); [simpl; tauto|].
  destruct (c =? 0); [simpl; tauto|].
  destruct (c =? totalCols - 1); simpl; tauto.
Qed.

Lemma percent_of_column c :
  0 ≤ c < GRID_COLS →
  (0 <= Q_of_double (percent c GRID_COLS))%Q ∧
  double_le (double_add (percent c GRID_COLS) (percent 1 GRID_COLS))
            (double_of_Z 100) = true ∧
  (Q_of_double (percent c GRID_COLS) + Q_of_double (percent 1 GRID_COLS)
   <= 100 + (1 # 140737488355328))%Q.
Proof.
  intros Hc.
  assert (c = 0 ∨ c = 1 ∨ c = 2 ∨ c = 3 ∨ c = 4 ∨ c = 5) as Hcases
    by (unfold GRID_COLS in Hc; lia).
  destruct Hcases as [->|[->|[->|[->|[->| ->]]]]]; by vm_compute.
Qed.

Lemma percent_of_row r :
  0 ≤ r < GRID_ROWS →
  (0 <= Q_of_double (percent r GRID_ROWS))%Q ∧
  double_le (double_add (percent r GRID_ROWS) (percent 1 GRID_ROWS))
            (double_of_Z 100) = true ∧
  (Q_of_double (percent r GRID_ROWS) + Q_of_double (percent 1 GRID_ROWS)
   <= 100)%Q.
Proof.
  intros Hr.
  assert (r = 0 ∨ r = 1 ∨ r = 2 ∨ r = 3 ∨ r = 4 ∨ r = 5 ∨ r = 6 ∨ r = 7
          ∨ r = 8 ∨ r = 9) as Hcases
    by (unfold GRID_ROWS in Hr; lia).
  destruct Hcases as [->|[->|[->|[->|[->|[->|[->|[->|[->| ->]]]]]]]]];
    by vm_compute.
Qed.

(** In the last column the two stored numbers are the doubles
    83.33333333333334 and 16.666666666666664: their sum as doubles is 100,
    their sum as rationals is 100 + 2^-47. *)
Lemma percent_last_column :
  double_add (percent 5 GRID_COLS) (percent 1 GRID_COLS) = double_of_Z 100 ∧
  (Q_of_double (percent 5 GRID_COLS) + Q_of_double (percent 1 GRID_COLS)
   == 100 + (1 # 140737488355328))%Q.
Proof. by vm_compute. Qed.

(** X22: on every run of the store, the faulty area that [handleFinish]
    builds for a cell of the active grid holds the percentages as the
    engine computes them in doubles.  They are not negative; x + width and
    y + height, added as doubles, do not exceed 100; as exact numbers
    y + height does not exceed 100 and x + width exceeds it by at most
    2^-47 (the rounding of 5/6 and 1/6).  The area has severity medium and
    names one of the five zones that [zoneForCell] can return, never the
    battery connector, the front camera flex, the home button flex or the
    full digitizer. *)
Theorem faulty_area_within_screen env k cell st db a cells :
  reachable (st, db) →
  activeSession st = Some a → gridCells a = Some cells → cell ∈ cells →
  let area := stored_area env k cell in
  let x := percent (col cell) GRID_COLS in
  let y := percent (row cell) GRID_ROWS in
  let w := percent 1 GRID_COLS in
  let h := percent 1 GRID_ROWS in
  xPercent area = Q_of_double x ∧ yPercent area = Q_of_double y ∧
  widthPercent area = Q_of_double w ∧ heightPercent area = Q_of_double h ∧
  (0 <= xPercent area)%Q ∧ (0 <= yPercent area)%Q ∧
  double_le (double_add x w) (double_of_Z 100) = true ∧
  double_le (double_add y h) (double_of_Z 100) = true ∧
  (xPercent area + widthPercent area <= 100 + (1 # 140737488355328))%Q ∧
  (yPercent area + heightPercent area <= 100)%Q ∧
  severity area = medium ∧
  ∃ z, hardwareZone area = Some z ∧ z ∈ grid_zones ∧
       z ∉ [battery_connector; front_camera_flex; home_button_flex;
            full_digitizer].
Proof.
  intros Hreach Ha Hg Hin area x y w h.
  destruct (reachable_store_inv _ _ Hreach a Ha) as [_ Hco].
  assert (0 ≤ row cell < GRID_ROWS ∧ 0 ≤ col cell < GRID_COLS) as [Hr Hc].
  { apply elem_of_coords_buildEmptyGrid. rewrite <- (Hco _ Hg).
    apply list_elem_of_fmap. by exists cell. }
  destruct (percent_of_row _ Hr) as (Hy0 & Hyd & Hy1).
  destruct (percent_of_column _ Hc) as (Hx0 & Hxd & Hx1).
  change (xPercent area) with (Q_of_double x).
  change (yPercent area) with (Q_of_double y).
  change (widthPercent area) with (Q_of_double w).
  change (heightPercent area) with (Q_of_double h).
  change (severity area) with medium.
  change (hardwareZone area)
    with (Some (zoneForCell (row cell) (col cell) GRID_ROWS GRID_COLS)).
  split_and!; try done.
  pose proof (zoneForCell_range (row cell) (col cell) GRID_ROWS GRID_COLS) as Hz.
  eexists. split; [reflexivity|]. split; [exact Hz|].
  intros Hbad. unfold grid_zones in Hz.
  apply list_elem_of_In in Hz, Hbad. simpl in Hz, Hbad.
  intuition congruence.
Qed.

Lemma reachable_st_faulty_cells :
  ∃ a cells,
    activeSession st_faulty = Some a ∧ gridCells a = Some cells ∧
    {| row := 4; col := 2; status := faulty; touchCount := 2;
       lastTouched := Some 1700000000000 |} ∈ cells.
Proof.
  eexists _, _. split; [vm_compute; reflexivity|].
  split; [reflexivity|].
  do 26 apply list_elem_of_further. apply list_elem_of_here.
Defined.

Lemma faulty_area_within_screen_witness :
  let area := stored_area env0 0
                {| row := 4; col := 2; status := faulty; touchCount := 2;
                   lastTouched := Some 1700000000000 |} in
  let x := percent 2 GRID_COLS in
  let y := percent 4 GRID_ROWS in
  let w := percent 1 GRID_COLS in
  let h := percent 1 GRID_ROWS in
  xPercent area = Q_of_double x ∧ yPercent area = Q_of_double y ∧
  widthPercent area = Q_of_double w ∧ heightPercent area = Q_of_double h ∧
  (0 <= xPercent area)%Q ∧ (0 <= yPercent area)%Q ∧
  double_le (double_add x w) (double_of_Z 100) = true ∧
  double_le (double_add y h) (double_of_Z 100) = true ∧
  (xPercent area + widthPercent area <= 100 + (1 # 140737488355328))%Q ∧
  (yPercent area + heightPercent area <= 100)%Q ∧
  severity area = medium ∧
  ∃ z, hardwareZone area = Some z ∧ z ∈ grid_zones ∧
       z ∉ [battery_connector; front_camera_flex; home_button_flex;
            full_digitizer].
Proof.
  destruct reachable_st_faulty_cells as (a & cells & Ha & Hg & Hin).
  exact (faulty_area_within_screen env0 0 _ st_faulty db_empty a cells
           reachable_st_faulty Ha Hg Hin).
Defined.

(** ** The hardware guide *)

Lemma elem_of_dedupe {A} `{EqDecision A} (l : list A) x :
  x ∈ dedupe l ↔ x ∈ l.
Proof.
  induction l as [|y l IH]; [done|]. simpl.
  rewrite !elem_of_cons, list_elem_of_filter, IH.
  destruct (decide (x = y)); tauto.
Qed.

Lemma NoDup_dedupe {A} `{EqDecision A} (l : list A) : NoDup (dedupe l).
Proof.
  induction l as [|y l IH]; [apply NoDup_nil_2|]. simpl.
  apply NoDup_cons. split; [|by apply NoDup_filter].
  intros [Hne _]%list_elem_of_filter. by apply Hne.
Qed.

Lemma fmap_filter_comm {A B} (f : A → B) (Q : B → Prop)
    `{∀ y, Decision (Q y)} (l : list A) :
  f <$> filter (λ x, Q (f x)) l = filter Q (f <$> l).
Proof.
  induction l as [|x l IH]; [done|].
  rewrite fmap_cons, !filter_cons.
  destruct (decide (Q (f x))); [rewrite fmap_cons|]; by rewrite IH.
Qed.

Lemma guide_zones :
  zone <$> HARDWARE_GUIDE =
    [lcd_connector; digitizer_top; digitizer_bottom; digitizer_left_edge;
     digitizer_right_edge; front_camera_flex; battery_connector;
     full_digitizer].
Proof. reflexivity. Qed.

Lemma elem_of_guide_zones z :
  z ∈ zone <$> HARDWARE_GUIDE ↔ z ≠ home_button_flex.
Proof.
  rewrite guide_zones, list_elem_of_In. simpl.
  destruct z; intuition congruence.
Qed.

Lemma NoDup_guide_zones : NoDup (zone <$> HARDWARE_GUIDE).
Proof.
  rewrite guide_zones. apply NoDup_ListNoDup.
  repeat (constructor; [simpl; intuition congruence|]). constructor.
Qed.

(** X23: the guide cards that the heatmap and detail screens show for a
    list of faulty areas name each affected zone at most once, and they
    are exactly the zones of the areas other than the home button flex,
    for which the catalogue has no entry; so when no area names the home
    button flex, there are as many cards as affected zones.  The affected
    zones themselves are listed without repetition. *)
Theorem guideItems_cover_zones areas :
  NoDup (uniqueZones areas) ∧
  (∀ z, z ∈ uniqueZones areas ↔ Some z ∈ hardwareZone <$> areas) ∧
  NoDup (zone <$> guideItems areas) ∧
  (∀ z, z ∈ zone <$> guideItems areas ↔
        z ∈ uniqueZones areas ∧ z ≠ home_button_flex) ∧
  (home_button_flex ∉ uniqueZones areas →
   length (guideItems areas) = length (uniqueZones areas)).
Proof.
  assert (Hzones : zone <$> guideItems areas =
                   filter (λ z, z ∈ uniqueZones areas) (zone <$> HARDWARE_GUIDE)).
  { exact (fmap_filter_comm zone (λ z, z ∈ uniqueZones areas) HARDWARE_GUIDE). }
  assert (Hmem : ∀ z, z ∈ zone <$> guideItems areas ↔
                      z ∈ uniqueZones areas ∧ z ≠ home_button_flex).
  { intros z. rewrite Hzones, list_elem_of_filter, elem_of_guide_zones. tauto. }
  assert (Hnd : NoDup (zone <$> guideItems areas)).
  { rewrite Hzones. apply NoDup_filter, NoDup_guide_zones. }
  split; [apply NoDup_dedupe|]. split.
  { intros z. unfold uniqueZones. rewrite elem_of_dedupe, list_elem_of_omap.
    rewrite list_elem_of_fmap. split.
    - intros (x & Hx & Hz). by exists x.
    - intros (x & Hz & Hx). by exists x. }
  split; [done|]. split; [done|].
  intros Hhome. rewrite <- (length_fmap zone).
  apply Permutation_length, NoDup_Permutation; [done | apply NoDup_dedupe|].
  intros z. rewrite Hmem. split; [tauto|].
  intros Hz. split; [done|]. by intros ->.
Qed.

Lemma guideItems_cover_zones_witness :
  length (guideItems
            [stored_area env0 0
               {| row := 4; col := 2; status := faulty; touchCount := 2;
                  lastTouched := Some 1700000000000 |};
             stored_area env0 1
               {| row := 5; col := 3; status := ghost; touchCount := 1;
                  lastTouched := Some 1700000000000 |}]) = 1%nat.
Proof.
  rewrite (proj2 (proj2 (proj2 (proj2 (guideItems_cover_zones _))))).
  - reflexivity.
  - vm_compute. intros Hin. apply list_elem_of_singleton in Hin. discriminate Hin.
Defined.

(** X24: the guide screen finds an entry of the catalogue for every zone
    except the home button flex, and the entry it finds is the one of that
    zone; the home button flex is one of the hotspots of the diagram, so
    selecting that hotspot shows no guide, while every other hotspot has
    one. *)
Theorem selectedGuide_found z :
  (selectedGuide (Some z) = None ↔ z = home_button_flex) ∧
  (∀ g, selectedGuide (Some z) = Some g → zone g = z) ∧
  selectedGuide None = None ∧
  home_button_flex ∈ dz_zone <$> DIAGRAM_ZONES ∧
  (∀ dz, dz ∈ DIAGRAM_ZONES → dz_zone dz ≠ home_button_flex →
         is_Some (selectedGuide (Some (dz_zone dz)))).
Proof.
  split; [|split; [|split; [done|split]]].
  - destruct z; split; intros H; try done; discriminate H.
  - intros g Hg. apply List.find_some in Hg as [_ Hz].
    apply bool_decide_eq_true in Hz. by injection Hz.
  - simpl. do 7 apply list_elem_of_further. apply list_elem_of_here.
  - intros dz _ Hne. destruct (dz_zone dz); try done; by eexists.
Qed.

(** ** The grid at the start of a test *)

Lemma buildEmptyGrid_untested cell :
  cell ∈ buildEmptyGrid →
  status cell = untested ∧ touchCount cell = 0 ∧ lastTouched cell = None.
Proof.
  unfold buildEmptyGrid.
  intros (r & Hin & _)%list_elem_of_bind.
  apply list_elem_of_bind in Hin as (c & Hin & _).
  apply list_elem_of_singleton in Hin. by subst cell.
Qed.

(** X25: [startSession] for the grid type allocates GRID_ROWS * GRID_COLS
    cells, all untested with count 0 and no time of last touch; looking up
    a position inside the grid finds the cell of that row and column, and
    looking up a position outside finds nothing. *)
Theorem startSession_grid_fresh dm env st r c :
  ∃ s st' cells,
    startSession grid dm env st = Normal (s, st') ∧
    gridCells s = Some cells ∧
    length cells = Z.to_nat (GRID_ROWS * GRID_COLS) ∧
    Forall (λ cell, status cell = untested ∧ touchCount cell = 0 ∧
                    lastTouched cell = None) cells ∧
    find_cell r c cells =
      if decide (0 ≤ r < GRID_ROWS ∧ 0 ≤ c < GRID_COLS)
      then Some {| row := r; col := c; status := untested; touchCount := 0;
                   lastTouched := None |}
      else None.
Proof.
  eexists _, _, _. split; [reflexivity|]. simpl.
  split; [reflexivity|]. split; [reflexivity|].
  split; [apply Forall_forall, buildEmptyGrid_untested|].
  destruct (decide (0 ≤ r < GRID_ROWS ∧ 0 ≤ c < GRID_COLS)) as [[Hr Hc]|Hout].
  - destruct (in_bounds_find_cell r c buildEmptyGrid eq_refl Hr Hc)
      as [cell Hfind].
    rewrite Hfind. f_equal.
    apply List.find_some in Hfind as [Hin Hat].
    apply list_elem_of_In, buildEmptyGrid_untested in Hin as (Hs & Ht & Hl).
    apply at_cell_coords in Hat. unfold coords in Hat.
    destruct cell. simpl in *. by simplify_eq.
  - by apply out_of_bounds_find_cell.
Qed.

Lemma deleteSession_effect_witness :
  ∃ st' db',
    deleteSession "1690000000000-older01" initialState
      (saveSession session_ab db_other) = Normal (st', db') ∧
    getSessionById "1690000000000-older01" db' = None ∧
    getSessionById (id session_ab) db'
      = getSessionById (id session_ab) (saveSession session_ab db_other).
Proof.
  destruct (deleteSession_effect "1690000000000-older01" initialState
              (saveSession session_ab db_other))
    as (st' & db' & Hrun & _ & _ & _ & Hgone & _ & Hkeep).
  exists st', db'. split; [exact Hrun|]. split; [exact Hgone|].
  apply Hkeep. discriminate.
Defined.

Lemma getSessions_sorted_complete_witness :
  ∃ s, s ∈ getSessions (saveSession session_ab db_other) ∧
       id s = id session_ab ∧ touchPoints s = [].
Proof.
  destruct (getSessions_sorted_complete (saveSession session_ab db_other))
    as (_ & _ & Hids & Hrows).
  pose proof (proj2 (Hids (id session_ab))) as Hin.
  apply list_elem_of_fmap in Hin as (s & Hid & Hs); [|by eexists].
  exists s. split; [exact Hs|]. split; [done|].
  destruct (Hrows s Hs) as (r & _ & ->). reflexivity.
Defined.

Lemma selectedGuide_found_witness :
  selectedGuide (Some home_button_flex) = None ∧
  zone <$> selectedGuide (Some digitizer_top) = Some digitizer_top.
Proof.
  split.
  - apply (proj1 (selectedGuide_found home_button_flex)). reflexivity.
  - destruct (selectedGuide (Some digitizer_top)) as [g|] eqn:E.
    + simpl. f_equal.
      exact (proj1 (proj2 (selectedGuide_found digitizer_top)) g E).
    + discriminate E.
Defined.

(** ** The progress of the grid test *)

Lemma tested_untested_split cells :
  (testedCount cells + untestedCount cells = length cells)%nat.
Proof.
  unfold testedCount, untestedCount.
  induction cells as [|c cells IH]; [done|]. simpl.
  repeat case_bool_decide; simpl; first [lia | exfalso; tauto].
Qed.

Lemma testedCount_all cells :
  testedCount cells = length cells ↔ Forall (λ c, status c ≠ untested) cells.
Proof.
  induction cells as [|c cells IH]; [by split; [constructor|]|].
  pose proof (tested_untested_split cells) as Hsplit.
  rewrite Forall_cons. unfold testedCount in *. simpl.
  case_bool_decide; simpl.
  - rewrite <- IH. split; [intros [= ->]; by split | intros [_ ->]; done].
  - split; [lia | tauto].
Qed.

Lemma testedCount_none cells :
  testedCount cells = 0%nat ↔ Forall (λ c, status c = untested) cells.
Proof.
  induction cells as [|c cells IH]; [by split; [constructor|]|].
  rewrite Forall_cons. unfold testedCount in *. simpl.
  case_bool_decide; simpl.
  - split; [lia | tauto].
  - rewrite IH. destruct (decide (status c = untested)); tauto.
Qed.

(** X26: on every run of the store with an active grid session, the
    number of tested cells in the header and the number that
    [handleFinish] writes into the note (all cells minus the untested ones)
    are the same; it lies between 0 and the number of cells, so the
    progress lies between 0 and 1; the progress is 1 exactly when no cell
    is untested, and the Done button is disabled exactly when every cell
    is untested. *)
Theorem progress_counts_tested st db a cells :
  reachable (st, db) →
  activeSession st = Some a → gridCells a = Some cells →
  let shown := screen_gridCells st in
  GRID_ROWS * GRID_COLS - Z.of_nat (untestedCount shown)
    = Z.of_nat (testedCount shown) ∧
  0 ≤ Z.of_nat (testedCount shown) ≤ totalCells ∧
  (0 <= progress shown)%Q ∧ (progress shown <= 1)%Q ∧
  ((progress shown == 1)%Q ↔ Forall (λ c, status c ≠ untested) shown) ∧
  (done_disabled shown = true ↔ Forall (λ c, status c = untested) shown).
Proof.
  intros Hreach Ha Hg shown.
  assert (shown = cells) as ->.
  { unfold shown, screen_gridCells. by rewrite Ha, Hg. }
  destruct (reachable_store_inv _ _ Hreach a Ha) as [_ Hco].
  assert (Hlen : length cells = 60%nat).
  { rewrite <- (length_fmap coords), (Hco _ Hg), length_fmap. reflexivity. }
  pose proof (tested_untested_split cells) as Hsplit.
  pose proof (testedCount_all cells) as Hall.
  pose proof (testedCount_none cells) as Hnone.
  set (t := testedCount cells) in *.
  assert (Hprog : (progress cells == inject_Z (Z.of_nat t) / 60)%Q) by reflexivity.
  change (GRID_ROWS * GRID_COLS) with 60. change totalCells with 60.
  split; [lia|]. split; [lia|].
  assert (Ht : (0 <= inject_Z (Z.of_nat t))%Q ∧ (inject_Z (Z.of_nat t) <= 60)%Q).
  { change 0%Q with (inject_Z 0). change 60%Q with (inject_Z 60).
    rewrite <- !Zle_Qle. lia. }
  destruct Ht as [Ht0 Ht1].
  split; [rewrite Hprog; apply Qle_shift_div_l; [reflexivity | lra]|].
  split; [rewrite Hprog; apply Qle_shift_div_r; [reflexivity | lra]|].
  split.
  - rewrite Hprog, <- Hall, Hlen. split.
    + intros Heq.
      assert (inject_Z (Z.of_nat t) == inject_Z 60)%Q as Hq.
      { change (inject_Z 60) with 60%Q.
        rewrite <- (Qmult_div_r (inject_Z (Z.of_nat t)) 60) by discriminate.
        rewrite Heq. reflexivity. }
      apply (proj1 (inject_Z_injective _ _)) in Hq. lia.
    + intros ->. reflexivity.
  - unfold done_disabled. rewrite bool_decide_eq_true. exact Hnone.
Qed.

Lemma progress_counts_tested_witness :
  let shown := screen_gridCells st_faulty in
  GRID_ROWS * GRID_COLS - Z.of_nat (untestedCount shown)
    = Z.of_nat (testedCount shown) ∧
  0 ≤ Z.of_nat (testedCount shown) ≤ totalCells ∧
  (0 <= progress shown)%Q ∧ (progress shown <= 1)%Q ∧
  ((progress shown == 1)%Q ↔ Forall (λ c, status c ≠ untested) shown) ∧
  (done_disabled shown = true ↔ Forall (λ c, status c = untested) shown).
Proof.
  destruct reachable_st_faulty_cells as (a & cells & Ha & Hg & _).
  exact (progress_counts_tested st_faulty db_empty a cells
           reachable_st_faulty Ha Hg).
Defined.
